(** * moviedb: a REST facade over a hosted table store (server.js)

    Shallow embedding of [server.js] and the properties of its chunking
    helper, bulk insert, NDJSON ingestion, auth middleware and generated
    routes.

    Conventions.
    - JavaScript numbers that the program uses as indices, sizes, counts and
      page numbers are integers; they are modelled in [Z].  All of them stay
      far below 2^53 on arrays a JavaScript engine can hold, so the integer
      arithmetic below is the arithmetic of the program.
    - Strings are [string].  [String.prototype.trim] is a parameter of the
      program, as are the hosted table store, [fetch], [JSON.parse] and
      [jwt.verify]: they are libraries outside the program.  [Js.trim],
      which removes the ASCII white space, is the instance the scenarios
      run with.
    - Numbers read from the request ([page], [chunkSize], a path id) are
      exact here; the program holds them in doubles, which are exact up to
      2^53.  Statements that depend on such a number say how large it may
      be.
    - A request path is taken as the router matched it; percent escapes in
      path parameters are not modelled. *)

From Stdlib Require Import ZArith Lia Ascii String.
From stdpp Require Import base option list strings gmap pretty.

Local Set Warnings "-register-all".
Local Open Scope string_scope.
Local Open Scope list_scope.
Local Open Scope Z_scope.

(** ** JavaScript values *)

Module Js.

(** Values that travel through the program: parsed JSON, plus [undefined]
  (an array read out of range, a missing property). *)
Inductive value :=
| VUndefined
| VNull
| VBool (b : bool)
| VNaN
| VNum (n : Z)
| VStr (s : string)
| VArr (items : list value)
| VObj (fields : list (string * value)).

(** ToBoolean. *)
Definition truthy (v : value) : bool :=
match v with
| VUndefined | VNull | VNaN => false
| VBool b => b
| VNum n => negb (n =? 0)
| VStr s => negb (String.eqb s "")
| VArr _ | VObj _ => true
end.

(** [Array.isArray]. *)
Definition isArray (v : value) : bool :=
match v with VArr _ => true | _ => false end.

(** Property read [o.k] on a value coming from [JSON.parse]: own properties
  of plain objects; the last duplicate key wins in [JSON.parse], so the
  field list is kept with that key first. *)
Fixpoint assoc (k : string) (fs : list (string * value)) : value :=
match fs with
| [] => VUndefined
| (k', v) :: fs' => if String.eqb k k' then v else assoc k fs'
end.

Definition get (k : string) (v : value) : value :=
match v with VObj fs => assoc k fs | _ => VUndefined end.

(** [Array.prototype.slice(start, end)] with its relative-index rules:
  a negative index counts from the end, everything is clamped to
  [0 .. length]. *)
Definition slice {A} (a : list A) (start stop : Z) : list A :=
let len := Z.of_nat (length a) in
let k := if start <? 0 then Z.max (len + start) 0 else Z.min start len in
let final := if stop <? 0 then Z.max (len + stop) 0 else Z.min stop len in
take (Z.to_nat (final - k)) (drop (Z.to_nat k) a).

(** [Math.ceil (a / b)] for integers [a] and positive [b]. *)
Definition ceil_div (a b : Z) : Z := - ((- a) / b).

(** [String(n)] for an integer. *)
Definition num_to_string (n : Z) : string := pretty n.

(** *** Strings *)

Definition is_ws (c : ascii) : bool :=
let n := nat_of_ascii c in
((9 <=? n) && (n <=? 13))%nat || (n =? 32)%nat.

Fixpoint trim_start (s : string) : string :=
match s with
| String c s' => if is_ws c then trim_start s' else s
| EmptyString => EmptyString
end.

Fixpoint rev_onto (s acc : string) : string :=
match s with
| EmptyString => acc
| String c s' => rev_onto s' (String c acc)
end.

Definition rev_string (s : string) : string := rev_onto s "".

(** [s.trim()] on strings whose white space is ASCII. *)
Definition trim (s : string) : string :=
rev_string (trim_start (rev_string (trim_start s))).

(** [s.split(sep)] for a one-character separator: never empty, an empty
  piece between two adjacent separators. *)
Fixpoint split_on (sep : ascii) (s : string) : list string :=
match s with
| EmptyString => [""]
| String c s' =>
    if Ascii.eqb c sep then "" :: split_on sep s'
    else match split_on sep s' with
         | piece :: pieces => String c piece :: pieces
         | [] => [String c ""]
         end
end.

(** Value of a digit character in bases up to 36. *)
Definition digit_val (c : ascii) : option Z :=
let n := Z.of_nat (nat_of_ascii c) in
if (48 <=? n) && (n <=? 57) then Some (n - 48)
else if (97 <=? n) && (n <=? 122) then Some (n - 87)
else if (65 <=? n) && (n <=? 90) then Some (n - 55)
else None.

(** The longest prefix of base-[radix] digits, read as a number; [acc] is
  the value read so far, [None] while no digit has been read. *)
Fixpoint parse_digits (radix : Z) (s : string) (acc : option Z) : option Z :=
match s with
| EmptyString => acc
| String c s' =>
    match digit_val c with
    | Some d =>
        if d <? radix
        then parse_digits radix s' (Some (default 0 acc * radix + d))
        else acc
    | None => acc
    end
end.

(** [parseInt(s)] without a radix; [None] is [NaN]. *)
Definition parseInt_string (s : string) : option Z :=
let s := trim_start s in
let '(sign, s) :=
  match s with
  | String "-" s' => (-1, s')
  | String "+" s' => (1, s')
  | _ => (1, s)
  end in
let '(radix, s) :=
  match s with
  | String "0" (String "x" s') | String "0" (String "X" s') => (16, s')
  | _ => (10, s)
  end in
Z.mul sign <$> parse_digits radix s None.

(** [String(v)] for what a parsed query string holds: a string, an array
    (a repeated parameter) or an object (a bracketed one). *)
Fixpoint to_text (v : value) : string :=
match v with
| VUndefined => "undefined"
| VNull => "null"
| VBool b => if b then "true" else "false"
| VNaN => "NaN"
| VNum n => num_to_string n
| VStr s => s
| VArr items =>
    (fix join (l : list value) : string :=
       let item x := match x with
                     | VUndefined | VNull => ""
                     | _ => to_text x
                     end in
       match l with
       | [] => ""
       | [x] => item x
       | x :: l' => item x +:+ "," +:+ join l'
       end) items
| VObj _ => "[object Object]"
end.

(** [n || d] for the result of [parseInt]: [NaN] and [0] are falsy. *)
Definition or_default (n : option Z) (d : Z) : Z :=
match n with
| Some k => if k =? 0 then d else k
| None => d
end.

Definition is_digit (c : ascii) : bool :=
let n := nat_of_ascii c in ((48 <=? n) && (n <=? 57))%nat.

Fixpoint all_digits (s : string) : bool :=
match s with
| EmptyString => true
| String c s' => is_digit c && all_digits s'
end.

(** What the pattern [\d+] accepts. *)
Definition is_numeric (s : string) : bool :=
negb (String.eqb s "") && all_digits s.

(** [Number(s)] on the strings [\d+] accepts; [NaN] stands for the rest. *)
Definition Number (s : string) : value :=
if is_numeric s
then match parse_digits 10 s None with Some n => VNum n | None => VNaN end
else VNaN.

Definition lower_ascii (c : ascii) : ascii :=
let n := nat_of_ascii c in
if ((65 <=? n) && (n <=? 90))%nat then ascii_of_nat (n + 32) else c.

Fixpoint lower (s : string) : string :=
match s with
| EmptyString => EmptyString
| String c s' => String (lower_ascii c) (lower s')
end.

End Js.
Import Js.

(** ** Helpers: chunkArray *)

Section ChunkArray.
Context {A : Type}.

(** State of the [for] loop of [chunkArray]: the index [i] and [result]. *)
Definition chunk_state : Type := Z * list (list A).

(** One turn of the loop: [None] when the guard [i < array.length] fails,
    else the state after [result.push(array.slice(i, i + size))] and
    [i += size]. *)
Definition chunk_step (array : list A) (size : Z) (st : chunk_state)
  : option chunk_state :=
  let '(i, result) := st in
  if i <? Z.of_nat (length array)
  then Some (i + size, result ++ [slice array i (i + size)])
  else None.

(** The loop, run for at most [fuel] turns; [None] when the fuel is
    exhausted before the guard fails. *)
Fixpoint chunk_loop (fuel : nat) (array : list A) (size : Z)
    (st : chunk_state) : option (list (list A)) :=
  match fuel with
  | O => None
  | S fuel' =>
      match chunk_step array size st with
      | None => Some (snd st)
      | Some st' => chunk_loop fuel' array size st'
      end
  end.

Definition chunkArray (fuel : nat) (array : list A) (size : Z)
  : option (list (list A)) :=
  chunk_loop fuel array size (0, []).

(** The state after [n] turns of the loop, as long as the guard holds. *)
Fixpoint chunk_iter (n : nat) (array : list A) (size : Z)
    (st : chunk_state) : option chunk_state :=
  match n with
  | O => Some st
  | S n' =>
      match chunk_step array size st with
      | None => None
      | Some st' => chunk_iter n' array size st'
      end
  end.

(** Consecutive pieces of [size] elements: what the loop computes for a
    positive size, by recursion on a bound for the length. *)
Fixpoint pieces (n : nat) (size : nat) (l : list A) : list (list A) :=
  match n with
  | O => []
  | S n' =>
      match l with
      | [] => []
      | _ => take size l :: pieces n' size (drop size l)
      end
  end.

Definition chunks_of (size : nat) (l : list A) : list (list A) :=
  pieces (length l) size l.

End ChunkArray.

(** ** The hosted table store, seen from the program *)

(** A filter of the query builder: [.eq], [.neq], [.not(col, "is", v)],
    [.ilike]. *)
Inductive Filter :=
| FEq (column : string) (v : value)
| FNeq (column : string) (v : value)
| FNotIs (column : string) (v : value)
| FIlike (column : string) (pattern : string).

Inductive CountMode := CountExact | CountEstimated.

(** One awaited query-builder chain is one request to the store.  The
    program reads back the rows of an insert only with [.select()]
    ([returning]); its one update always does. *)
Inductive Call :=
| CUpsert (table : string) (rows : list value) (onConflict : string)
    (ignoreDuplicates : bool)
| CInsert (table : string) (rows : list value) (returning : bool)
| CSelect (table : string) (count : option CountMode) (filters : list Filter)
    (order_desc : option string) (range : option (Z * Z)) (single : bool)
| CUpdate (table : string) (fields : value) (filters : list Filter)
| CDelete (table : string) (filters : list Filter).

Record BackendError := { message : string }.

(** The [{ data, error, count }] a call resolves to. *)
Record Reply := {
  r_data : value;
  r_error : option BackendError;
  r_count : option Z
}.

(** The response object of [fetch], its body already cut into lines as
    [readline] delivers them. *)
Record FetchResponse := {
  ok : bool;
  f_status : Z;
  statusText : string;
  body_lines : list string
}.

(** The methods the program registers routes for.  What the router does on
    its own for other methods ([HEAD], [OPTIONS]) is not part of the
    program and not modelled. *)
Inductive Method := GET | POST | PUT | DELETE.

(** The request as the handlers read it: header names in lower case, the
    parsed query string (a parameter is a string, or an array or object
    when it is repeated or bracketed), the body as parsed JSON, the path
    parameters of the matched route, and [req.user]. *)
Record Request := {
  method : Method;
  path : string;
  query : gmap string value;
  headers : gmap string string;
  body : value;
  params : gmap string string;
  user : option value
}.

Definition with_user (req : Request) (decoded : value) : Request :=
  {| method := method req; path := path req; query := query req;
     headers := headers req; body := body req; params := params req;
     user := Some decoded |}.

Definition with_headers (req : Request) (hs : gmap string string) : Request :=
  {| method := method req; path := path req; query := query req;
     headers := hs; body := body req; params := params req;
     user := user req |}.

Definition with_query (req : Request) (q : gmap string value) : Request :=
  {| method := method req; path := path req; query := q;
     headers := headers req; body := body req; params := params req;
     user := user req |}.

Definition with_params (req : Request) (ps : gmap string string) : Request :=
  {| method := method req; path := path req; query := query req;
     headers := headers req; body := body req; params := ps;
     user := user req |}.

(** What [res.status(s).json(b)] sends; [res.json(b)] sends status 200, and
    a body [undefined] is an empty body. *)
Record Response := { status : Z; sent : value }.

Definition json (b : value) : Response := {| status := 200; sent := b |}.
Definition status_json (s : Z) (b : value) : Response :=
  {| status := s; sent := b |}.
Definition error_body (msg : string) : value := VObj [("error", VStr msg)].
Definition message_body (msg : string) : value := VObj [("message", VStr msg)].

(** The result object of [insertChunks]. *)
Record InsertResult := { error : option string; insertedTotal : Z }.

(** ** Routes as [generateRoutes] registers them *)

(** A segment of a route path: a literal, [:name], or [:name(\d+)]. *)
Inductive Seg :=
| Lit (s : string)
| Param (name : string)
| DigitsParam (name : string).

Inductive Endpoint :=
| OnCreate (tableName : string)
| OnList (tableName : string)
| OnWithVideo (tableName : string)
| OnSearch (tableName : string)
| OnGetById (tableName : string)
| OnUpdate (tableName : string)
| OnDelete (tableName : string)
| OnBulkUpload (tableName : string)
| OnHealth.

Record Route := {
  r_method : Method;
  r_path : list Seg;
  r_auth : bool;
  r_endpoint : Endpoint
}.

Definition method_eqb (a b : Method) : bool :=
  match a, b with
  | GET, GET | POST, POST | PUT, PUT | DELETE, DELETE => true
  | _, _ => false
  end.

(** The routes of one table, in the order of the [app.post], [app.get],
    [app.put] and [app.delete] calls of [generateRoutes].  A table name is
    one path segment. *)
Definition generateRoutes (tableName : string) : list Route :=
  let base := [Lit "api"; Lit tableName] in
  [ {| r_method := POST; r_path := base; r_auth := true;
       r_endpoint := OnCreate tableName |};
    {| r_method := GET; r_path := base; r_auth := false;
       r_endpoint := OnList tableName |};
    {| r_method := GET; r_path := base ++ [Lit "with-video"]; r_auth := false;
       r_endpoint := OnWithVideo tableName |};
    {| r_method := GET; r_path := base ++ [Lit "search"]; r_auth := false;
       r_endpoint := OnSearch tableName |};
    {| r_method := GET; r_path := base ++ [DigitsParam "id"]; r_auth := false;
       r_endpoint := OnGetById tableName |};
    {| r_method := PUT; r_path := base ++ [Param "id"]; r_auth := true;
       r_endpoint := OnUpdate tableName |};
    {| r_method := DELETE; r_path := base ++ [Param "id"]; r_auth := true;
       r_endpoint := OnDelete tableName |};
    {| r_method := POST; r_path := base ++ [Lit "bulk-upload"]; r_auth := true;
       r_endpoint := OnBulkUpload tableName |} ].

(** The three [GET] routes below [/api/T] that can meet on one path. *)
Definition search_route (T : string) : Route :=
  {| r_method := GET; r_path := [Lit "api"; Lit T; Lit "search"];
     r_auth := false; r_endpoint := OnSearch T |}.

Definition with_video_route (T : string) : Route :=
  {| r_method := GET; r_path := [Lit "api"; Lit T; Lit "with-video"];
     r_auth := false; r_endpoint := OnWithVideo T |}.

Definition get_by_id_route (T : string) : Route :=
  {| r_method := GET; r_path := [Lit "api"; Lit T; DigitsParam "id"];
     r_auth := false; r_endpoint := OnGetById T |}.

Definition tables : list string := ["movies"; "series"; "anime"].

(** Every route of the application, in registration order. *)
Definition app_routes : list Route :=
  flat_map generateRoutes tables
  ++ [ {| r_method := GET; r_path := []; r_auth := false;
          r_endpoint := OnHealth |} ].

(** One path segment against one pattern segment; literals compare without
    regard to case, as the router does by default. *)
Definition match_seg (p : Seg) (s : string) (ps : gmap string string)
  : option (gmap string string) :=
  match p with
  | Lit l => if String.eqb (lower l) (lower s) then Some ps else None
  | Param name => if String.eqb s "" then None else Some (<[name := s]> ps)
  | DigitsParam name => if is_numeric s then Some (<[name := s]> ps) else None
  end.

(** The segments of the request path after its leading [/], against the
    pattern; one trailing [/] is allowed. *)
Fixpoint match_segs (pat : list Seg) (segs : list string)
    (ps : gmap string string) : option (gmap string string) :=
  match pat, segs with
  | [], [] => Some ps
  | [], [s] => if String.eqb s "" then Some ps else None
  | p :: pat', s :: segs' =>
      match match_seg p s ps with
      | Some ps' => match_segs pat' segs' ps'
      | None => None
      end
  | _, _ => None
  end.

Definition match_path (pat : list Seg) (p : string)
  : option (gmap string string) :=
  match split_on "/" p with
  | "" :: segs => match_segs pat segs ∅
  | _ => None
  end.

Definition match_route (r : Route) (m : Method) (p : string)
  : option (gmap string string) :=
  if method_eqb (r_method r) m then match_path (r_path r) p else None.

(** The first registered route that matches, with the path parameters. *)
Fixpoint dispatch (routes : list Route) (m : Method) (p : string)
  : option (Route * gmap string string) :=
  match routes with
  | [] => None
  | r :: routes' =>
      match match_route r m p with
      | Some ps => Some (r, ps)
      | None => dispatch routes' m p
      end
  end.

(** ** The program over a store *)

Section Server.
(** State of the remote store. *)
Context {B : Type}.
(** The store answers a call and moves to a new state. *)
Variable exec : Call -> B -> Reply * B.
(** [fetch(url)]: rejects with a message, or resolves to a response. *)
Variable fetch : value -> string + FetchResponse.
(** [JSON.parse]: throws a [SyntaxError] with a message, or returns. *)
Variable JSON_parse : string -> string + value.
(** [String.prototype.trim]. *)
Variable trim : string -> string.
(** [jwt.verify(token, secret, cb)]: the payload handed to [cb], or [None]
    when [cb] gets an error; the token is [undefined] when the header has
    no second word. *)
Variable jwt_verify : option string -> option string -> option value.
(** [process.env.MY_API_KEY]. *)
Variable MY_API_KEY : option string.

(** The store together with the log of the calls made to it so far. *)
Record World := { store : B; trace : list Call }.

(** How a computation ends: it returns, it throws [new Error(e)], or it
    is still running when the fuel of a loop is spent. *)
Inductive outcome (A : Type) :=
| Ret (a : A) (w : World)
| Throw (e : string) (w : World)
| OutOfFuel.
Arguments Ret {A} a w.
Arguments Throw {A} e w.
Arguments OutOfFuel {A}.

Definition M (A : Type) : Type := World -> outcome A.

Definition ret {A} (a : A) : M A := fun w => Ret a w.
Definition throw {A} (e : string) : M A := fun w => Throw e w.
Definition out_of_fuel {A} : M A := fun _ => OutOfFuel.
Definition bind {A C} (m : M A) (k : A -> M C) : M C :=
  fun w =>
    match m w with
    | Ret a w' => k a w'
    | Throw e w' => Throw e w'
    | OutOfFuel => OutOfFuel
    end.

Notation "'do' x <- m ; k" := (bind m (fun x => k))
  (at level 10, x pattern, m at level 100, k at level 200,
   format "'[v' 'do'  x  <-  m ; '/' k ']'").

(** [await] of one query-builder chain. *)
Definition call (c : Call) : M Reply :=
  fun w =>
    let '(reply, b) := exec c (store w) in
    Ret reply {| store := b; trace := trace w ++ [c] |}.

(** [try { ... } catch (err) { res.status(500).json({ error: err.message }) }] *)
Definition try_catch (m : M Response) : M Response :=
  fun w =>
    match m w with
    | Throw e w' => Ret (status_json 500 (error_body e)) w'
    | o => o
    end.

(** *** authMiddleware *)

Definition authMiddleware (req : Request) (next : Request -> M Response)
  : M Response :=
  match headers req !! "authorization" with
  | None => ret (status_json 401 (error_body "Unauthorized"))
  | Some authHeader =>
      if String.eqb authHeader ""
      then ret (status_json 401 (error_body "Unauthorized"))
      else
        let token := split_on " " authHeader !! 1%nat in
        match jwt_verify token MY_API_KEY with
        | None => ret (status_json 403 (error_body "Forbidden"))
        | Some decoded => next (with_user req decoded)
        end
  end.

(** *** insertChunks *)

Definition chunk_failed (i : nat) (n : nat) (e : BackendError) : string :=
  "Chunk " +:+ num_to_string (Z.of_nat i + 1) +:+ "/"
  +:+ num_to_string (Z.of_nat n) +:+ " failed: " +:+ message e.

(** The store call of one chunk, by mode. *)
Definition write_call (tableName : string) (mode : string)
    (chunk : list value) : Call :=
  if String.eqb mode "skip" then CUpsert tableName chunk "id" true
  else if String.eqb mode "merge" then CUpsert tableName chunk "id" false
  else CInsert tableName chunk false.

(** The [for (const [i, chunk] of chunks.entries())] loop from index [i];
    [n] is [chunks.length]. *)
Fixpoint insert_loop (tableName mode : string) (n i : nat)
    (chunks : list (list value)) (total : Z) : M InsertResult :=
  match chunks with
  | [] => ret {| error := None; insertedTotal := total |}
  | chunk :: rest =>
      do reply <- call (write_call tableName mode chunk);
      match r_error reply with
      | Some e =>
          ret {| error := Some (chunk_failed i n e); insertedTotal := total |}
      | None =>
          insert_loop tableName mode n (S i) rest
            (total + Z.of_nat (length chunk))
      end
  end.

Definition insertChunks (fuel : nat) (tableName : string)
    (rows : list value) (chunkSize : Z) (mode : string) : M InsertResult :=
  match chunkArray fuel rows chunkSize with
  | None => out_of_fuel
  | Some chunks => insert_loop tableName mode (length chunks) 0 chunks 0
  end.

(** *** ingestNdjsonFromUrl *)

(** [if (error)] on the [error] of an [InsertResult]: a string that is not
    empty. *)
Definition has_error (r : InsertResult) : option string :=
  match error r with
  | Some e => if String.eqb e "" then None else Some e
  | None => None
  end.

(** One flush of the buffer; [insertChunks] is called without a mode, so
    in mode ['skip']. *)
Definition flush (fuel : nat) (tableName : string) (buffer : list value)
    (chunkSize : Z) (total : Z) : M Z :=
  do r <- insertChunks fuel tableName buffer chunkSize "skip";
  match has_error r with
  | Some e => throw e
  | None => ret (total + insertedTotal r)
  end.

(** The [for await (const line of rl)] loop. *)
Fixpoint ingest_lines (fuel : nat) (tableName : string) (chunkSize : Z)
    (lines : list string) (buffer : list value) (total : Z)
  : M (list value * Z) :=
  match lines with
  | [] => ret (buffer, total)
  | line :: rest =>
      let trimmed := trim line in
      if String.eqb trimmed ""
      then ingest_lines fuel tableName chunkSize rest buffer total
      else
        match JSON_parse trimmed with
        | inl e => throw e
        | inr obj =>
            let buffer := buffer ++ [obj] in
            if Z.of_nat (length buffer) >=? chunkSize
            then
              do total' <- flush fuel tableName buffer chunkSize total;
              ingest_lines fuel tableName chunkSize rest [] total'
            else ingest_lines fuel tableName chunkSize rest buffer total
        end
  end.

Definition ingestNdjsonFromUrl (fuel : nat) (tableName : string)
    (fileUrl : value) (chunkSize : Z) : M Z :=
  match fetch fileUrl with
  | inl e => throw e
  | inr resp =>
      if negb (ok resp)
      then throw ("Failed to fetch fileUrl: " +:+ num_to_string (f_status resp)
                  +:+ " " +:+ statusText resp)
      else
        do (buffer, total) <-
          ingest_lines fuel tableName chunkSize (body_lines resp) [] 0;
        if negb (length buffer =? 0)%nat
        then flush fuel tableName buffer chunkSize total
        else ret total
  end.

(** *** The route handlers of generateRoutes *)

(** [a[0]] on what the store returned as [data]. *)
Definition index0 (v : value) : string + value :=
  match v with
  | VArr (x :: _) => inr x
  | VArr [] => inr VUndefined
  | VNull => inl "Cannot read properties of null (reading '0')"
  | VUndefined => inl "Cannot read properties of undefined (reading '0')"
  | VStr (String c _) => inr (VStr (String c ""))
  | VObj fs => inr (assoc "0" fs)
  | _ => inr VUndefined
  end.

Definition bad_request (e : BackendError) : Response :=
  status_json 400 (error_body (message e)).
Definition not_found (e : BackendError) : Response :=
  status_json 404 (error_body (message e)).

(** [req.params.id] as the string of a template, and as a value. *)
Definition param (req : Request) (name : string) : value :=
  match params req !! name with Some s => VStr s | None => VUndefined end.
Definition param_text (req : Request) (name : string) : string :=
  default "undefined" (params req !! name).

(** The loop of the bulk branch of the create route: [Some] is the
    response of the [return] inside the loop. *)
Fixpoint create_loop (tableName : string) (chunks : list (list value))
  : M (option Response) :=
  match chunks with
  | [] => ret None
  | chunk :: rest =>
      do reply <- call (CInsert tableName chunk false);
      match r_error reply with
      | Some e => ret (Some (bad_request e))
      | None => create_loop tableName rest
      end
  end.

Definition create_handler (fuel : nat) (tableName : string) (req : Request)
  : M Response :=
  try_catch
    (let data := body req in
     match data with
     | VArr items =>
         match chunkArray fuel items 5000 with
         | None => out_of_fuel
         | Some chunks =>
             do r <- create_loop tableName chunks;
             match r with
             | Some resp => ret resp
             | None =>
                 ret (json (message_body
                   (num_to_string (Z.of_nat (length items))
                    +:+ " records inserted into " +:+ tableName)))
             end
         end
     | _ =>
         do reply <- call (CInsert tableName [data] true);
         match r_error reply with
         | Some e => ret (bad_request e)
         | None =>
             match index0 (r_data reply) with
             | inl e => throw e
             | inr row => ret (json row)
             end
         end
     end).

Definition limit : Z := 30.

(** [parseInt(x)] of a query parameter; [None] is [NaN].  A missing
    parameter is [undefined], whose string form has no digit.  [parseInt]
    skips the white space [trim] removes, and never reads past the
    digits. *)
Definition parseInt (x : option value) : option Z :=
  match x with
  | Some v => parseInt_string (trim (to_text v))
  | None => None
  end.

(** [(x || '').trim()] for a query parameter [x]: an array or an object has
    no [trim], and the call throws a [TypeError]. *)
Definition trimmed (x : option value) : string + string :=
  match x with
  | None => inr (trim "")
  | Some (VStr s) => inr (trim s)
  | Some _ => inl "trim is not a function"
  end.

(** [parseInt(req.query.page) || 1] *)
Definition page_of (req : Request) : Z :=
  or_default (parseInt (query req !! "page")) 1.

Definition range_of (page : Z) : Z * Z :=
  let from := (page - 1) * limit in
  let to := from + limit - 1 in
  (from, to).

Definition count_value (count : option Z) : value :=
  match count with Some c => VNum c | None => VNull end.

(** The body of the list routes; [Math.ceil(null / 30)] is [0]. *)
Definition page_body (page : Z) (reply : Reply) : value :=
  VObj [ ("page", VNum page);
         ("total", count_value (r_count reply));
         ("totalPages", VNum (ceil_div (default 0 (r_count reply)) limit));
         ("results", r_data reply) ].

Definition paged_select (tableName : string) (filters : list Filter)
    (req : Request) : M Response :=
  try_catch
    (let page := page_of req in
     do reply <- call (CSelect tableName (Some CountExact) filters
                         (Some "release_date") (Some (range_of page)) false);
     match r_error reply with
     | Some e => ret (bad_request e)
     | None => ret (json (page_body page reply))
     end).

Definition list_handler (tableName : string) (req : Request) : M Response :=
  paged_select tableName [] req.

Definition with_video_handler (tableName : string) (req : Request)
  : M Response :=
  paged_select tableName
    [FNotIs "video_url" VNull; FNeq "video_url" (VStr "")] req.

(** The body of the search route: [count ?? null] and
    [count != null ? Math.ceil(count / limit) : null]. *)
Definition search_body (page : Z) (reply : Reply) : value :=
  VObj [ ("page", VNum page);
         ("total", count_value (r_count reply));
         ("totalPages",
           match r_count reply with
           | Some c => VNum (ceil_div c limit)
           | None => VNull
           end);
         ("results", r_data reply) ].

Definition search_handler (tableName : string) (req : Request)
  : M Response :=
  try_catch
    (match trimmed (query req !! "q"), trimmed (query req !! "id") with
     | inl e, _ => throw e
     | inr _, inl e => throw e
     | inr q, inr id =>
         if negb (String.eqb id "")
         then
           do reply <- call (CSelect tableName None [FEq "id" (VStr id)]
                               None None true);
           match r_error reply with
           | Some e => ret (not_found e)
           | None => ret (json (r_data reply))
           end
         else if String.eqb q ""
         then ret (status_json 400 (error_body "Provide either ?q or ?id"))
         else
           let page := page_of req in
           let countMode :=
             match query req !! "count" with
             | Some (VStr c) => if String.eqb c "exact" then CountExact
                                else CountEstimated
             | _ => CountEstimated
             end in
           do reply <- call (CSelect tableName (Some countMode)
                               [FIlike "original_title" ("%" +:+ q +:+ "%")]
                               (Some "release_date") (Some (range_of page))
                               false);
           match r_error reply with
           | Some e => ret (bad_request e)
           | None => ret (json (search_body page reply))
           end
     end).

Definition get_by_id_handler (tableName : string) (req : Request)
  : M Response :=
  try_catch
    (do reply <- call (CSelect tableName None
                         [FEq "id" (Number (param_text req "id"))]
                         None None true);
     match r_error reply with
     | Some e => ret (not_found e)
     | None => ret (json (r_data reply))
     end).

(** The update route: [.update(req.body).eq("id", req.params.id).select()]. *)
Definition update_handler (tableName : string) (req : Request)
  : M Response :=
  try_catch
    (do reply <- call (CUpdate tableName (body req)
                         [FEq "id" (param req "id")]);
     match r_error reply with
     | Some e => ret (bad_request e)
     | None =>
         match index0 (r_data reply) with
         | inl e => throw e
         | inr row => ret (json row)
         end
     end).

Definition delete_handler (tableName : string) (req : Request)
  : M Response :=
  try_catch
    (do reply <- call (CDelete tableName [FEq "id" (param req "id")]);
     match r_error reply with
     | Some e => ret (bad_request e)
     | None =>
         ret (json (message_body
           (tableName +:+ " with id " +:+ param_text req "id"
            +:+ " deleted")))
     end).

(** [Math.max(1, parseInt(req.query.chunkSize) || 30)] *)
Definition chunkSize_of (req : Request) : Z :=
  Z.max 1 (or_default (parseInt (query req !! "chunkSize")) 30).

Definition inserted_response (tableName : string) (chunkSize : Z)
    (r : InsertResult) : Response :=
  match has_error r with
  | Some e => status_json 400 (error_body e)
  | None =>
      json (message_body
        ("Inserted " +:+ num_to_string (insertedTotal r)
         +:+ " records into " +:+ tableName +:+ " in chunks of "
         +:+ num_to_string chunkSize))
  end.

Definition bulk_upload_handler (fuel : nat) (tableName : string)
    (req : Request) : M Response :=
  try_catch
    (let chunkSize := chunkSize_of req in
     match body req with
     | VArr rows =>
         do r <- insertChunks fuel tableName rows chunkSize "skip";
         ret (inserted_response tableName chunkSize r)
     | _ =>
         let items := get "items" (body req) in
         let fileUrl := get "fileUrl" (body req) in
         match items with
         | VArr rows =>
             do r <- insertChunks fuel tableName rows chunkSize "skip";
             ret (inserted_response tableName chunkSize r)
         | _ =>
             if truthy fileUrl
             then
               do total <- ingestNdjsonFromUrl fuel tableName fileUrl
                             chunkSize;
               ret (json (message_body
                 ("Stream-inserted " +:+ num_to_string total
                  +:+ " records into " +:+ tableName +:+ " in chunks of "
                  +:+ num_to_string chunkSize)))
             else
               ret (status_json 400 (error_body
                 "Provide either an array body, { items: [...] }, or { fileUrl } pointing to NDJSON"))
         end
     end).

Definition health_handler (req : Request) : M Response :=
  ret (json (VObj [("ok", VBool true)])).

(** *** The application *)

Definition endpoint_handler (fuel : nat) (ep : Endpoint)
  : Request -> M Response :=
  match ep with
  | OnCreate t => create_handler fuel t
  | OnList t => list_handler t
  | OnWithVideo t => with_video_handler t
  | OnSearch t => search_handler t
  | OnGetById t => get_by_id_handler t
  | OnUpdate t => update_handler t
  | OnDelete t => delete_handler t
  | OnBulkUpload t => bulk_upload_handler fuel t
  | OnHealth => health_handler
  end.

(** A route with [authMiddleware] runs it before its handler. *)
Definition run_route (fuel : nat) (r : Route) (req : Request) : M Response :=
  if r_auth r
  then authMiddleware req (endpoint_handler fuel (r_endpoint r))
  else endpoint_handler fuel (r_endpoint r) req.

(** A request through the application; when no route matches the router
    answers 404 with a page of its own. *)
Definition handle (fuel : nat) (req : Request) : M Response :=
  match dispatch app_routes (method req) (path req) with
  | Some (r, ps) => run_route fuel r (with_params req ps)
  | None => ret (status_json 404 VUndefined)
  end.

(** *** Runs of the store *)

(** The store after the calls [cs] made in order from [b], when none of
    them reports an error. *)
Fixpoint run_ok (cs : list Call) (b : B) : option B :=
  match cs with
  | [] => Some b
  | c :: cs' =>
      let '(reply, b') := exec c b in
      match r_error reply with
      | None => run_ok cs' b'
      | Some _ => None
      end
  end.

(** The world [w] after the calls [cs] have been made and left the store
    in [b]. *)
Definition logged (w : World) (cs : list Call) (b : B) : World :=
  {| store := b; trace := trace w ++ cs |}.

(** The values of the lines that are not blank, or the first syntax
    error. *)
Fixpoint parse_lines (lines : list string) : string + list value :=
  match lines with
  | [] => inr []
  | line :: rest =>
      if String.eqb (trim line) "" then parse_lines rest
      else
        match JSON_parse (trim line), parse_lines rest with
        | inl e, _ => inl e
        | inr _, inl e => inl e
        | inr obj, inr objs => inr (obj :: objs)
        end
  end.

(** An outcome reached from [w] in which the program has ended, by a
    return or a throw, and every call it made on the way is an upsert into
    [T] that skips duplicates and carries between 1 and [chunkSize] rows. *)
Definition skip_writes_only {A} (T : string) (chunkSize : Z) (w : World)
    (o : outcome A) : Prop :=
  match o with
  | Ret _ w' | Throw _ w' =>
      exists calls,
        trace w' = trace w ++ calls /\
        Forall (fun c => exists rows,
                  c = CUpsert T rows "id" true /\
                  0 < Z.of_nat (length rows) <= chunkSize) calls
  | OutOfFuel => False
  end.

End Server.

Arguments Ret {B A} a w.
Arguments Throw {B A} e w.
Arguments OutOfFuel {B A}.

(** ** A reference store

    An in-memory stand-in for the hosted store, used to run the program on
    concrete scenarios: a table is the list of its rows, kept in the order
    the list routes ask for.  It follows the store's documented behaviour:
    a plain insert of a taken [id] is an error, an upsert never is, an
    update or delete that matches no row is not an error, [single] wants
    exactly one row. *)

Module RefStore.

Definition t : Type := gmap string (list value).

(** How an [id] is written in a filter: [7] and ["7"] are the same id. *)
Definition id_text (v : value) : option string :=
  match v with
  | VNum n => Some (num_to_string n)
  | VStr s => Some s
  | _ => None
  end.

Definition same_text (a b : value) : bool :=
  match id_text a, id_text b with
  | Some x, Some y => String.eqb x y
  | _, _ => false
  end.

Fixpoint is_prefix (p s : string) : bool :=
  match p, s with
  | EmptyString, _ => true
  | String a p', String b s' => Ascii.eqb a b && is_prefix p' s'
  | _, EmptyString => false
  end.

Fixpoint contains (sub s : string) : bool :=
  is_prefix sub s ||
  match s with
  | EmptyString => false
  | String _ s' => contains sub s'
  end.

(** The text between the two [%] of a substring pattern. *)
Definition inner (pattern : string) : string :=
  match pattern with
  | String "%" p =>
      match rev_string p with
      | String "%" r => rev_string r
      | _ => p
      end
  | _ => pattern
  end.

Definition keeps (f : Filter) (row : value) : bool :=
  match f with
  | FEq c v => same_text (get c row) v
  | FNeq c v => negb (same_text (get c row) v)
  | FNotIs c _ =>
      match get c row with VNull | VUndefined => false | _ => true end
  | FIlike c pattern =>
      match get c row with
      | VStr s => contains (lower (inner pattern)) (lower s)
      | _ => false
      end
  end.

Definition select_rows (filters : list Filter) (rows : list value)
  : list value :=
  List.filter (fun row => forallb (fun f => keeps f row) filters) rows.

Definition has_id (rows : list value) (row : value) : bool :=
  existsb (fun r => same_text (get "id" r) (get "id" row)) rows.

(** Rows of [new] whose id is not in [rows], nor earlier in [new]. *)
Fixpoint fresh_rows (rows new : list value) : list value :=
  match new with
  | [] => []
  | r :: new' =>
      if has_id rows r then fresh_rows rows new'
      else r :: fresh_rows (rows ++ [r]) new'
  end.

Fixpoint any_taken (rows new : list value) : bool :=
  match new with
  | [] => false
  | r :: new' => has_id rows r || any_taken (rows ++ [r]) new'
  end.

Definition has_key (k : string) (fs : list (string * value)) : bool :=
  existsb (fun kv => String.eqb kv.1 k) fs.

(** The fields of [patch] over those of [row]. *)
Definition merge_fields (patch row : value) : value :=
  match patch, row with
  | VObj ps, VObj rs =>
      VObj (map (fun kv => if has_key kv.1 ps then (kv.1, assoc kv.1 ps)
                           else kv) rs
            ++ List.filter (fun kv => negb (has_key kv.1 rs)) ps)
  | _, _ => row
  end.

Definition put_row (rows : list value) (r : value) : list value :=
  if has_id rows r
  then map (fun old => if same_text (get "id" old) (get "id" r)
                       then merge_fields r old else old) rows
  else rows ++ [r].

Definition reply_ok (data : value) (count : option Z) : Reply :=
  {| r_data := data; r_error := None; r_count := count |}.
Definition reply_error (msg : string) : Reply :=
  {| r_data := VNull; r_error := Some {| message := msg |};
     r_count := None |}.

Definition exec_on (c : Call) (rows : list value) : Reply * list value :=
  match c with
  | CUpsert _ new _ ignoreDuplicates =>
      (reply_ok VNull None,
       if ignoreDuplicates then rows ++ fresh_rows rows new
       else foldl put_row rows new)
  | CInsert _ new returning =>
      if any_taken rows new
      then (reply_error "duplicate key value violates unique constraint",
            rows)
      else (reply_ok (if returning then VArr new else VNull) None,
            rows ++ new)
  | CSelect _ count filters _ range single =>
      let found := select_rows filters rows in
      let counted := (fun _ => Z.of_nat (length found)) <$> count in
      let shown :=
        match range with
        | Some (from, to) => slice found from (to + 1)
        | None => found
        end in
      (if single
       then match shown with
            | [row] => reply_ok row counted
            | _ => reply_error
                "JSON object requested, multiple (or no) rows returned"
            end
       else reply_ok (VArr shown) counted,
       rows)
  | CUpdate _ fields filters =>
      let hit := fun row => forallb (fun f => keeps f row) filters in
      (reply_ok (VArr (map (merge_fields fields) (List.filter hit rows)))
         None,
       map (fun row => if hit row then merge_fields fields row else row)
         rows)
  | CDelete _ filters =>
      (reply_ok VNull None,
       List.filter
         (fun row => negb (forallb (fun f => keeps f row) filters)) rows)
  end.

Definition table_of (c : Call) : string :=
  match c with
  | CUpsert t _ _ _ | CInsert t _ _ | CSelect t _ _ _ _ _
  | CUpdate t _ _ | CDelete t _ => t
  end.

Definition exec (c : Call) (s : t) : Reply * t :=
  match s !! table_of c with
  | None => (reply_error "relation does not exist", s)
  | Some rows =>
      let '(reply, rows') := exec_on c rows in
      (reply, <[table_of c := rows']> s)
  end.

(** The double quote, and the line [{"id":n}] of an NDJSON resource. *)
Definition dq : string := String (ascii_of_nat 34) "".
Definition id_line (n : Z) : string :=
  "{" +:+ dq +:+ "id" +:+ dq +:+ ":" +:+ num_to_string n +:+ "}".

Fixpoint drop_prefix (p s : string) : option string :=
  match p, s with
  | EmptyString, _ => Some s
  | String a p', String b s' =>
      if Ascii.eqb a b then drop_prefix p' s' else None
  | _, EmptyString => None
  end.

(** [JSON.parse] on the lines [{"id":n}], a syntax error elsewhere: the
    part of JSON the scenarios are written in. *)
Definition parse_id_object (s : string) : string + value :=
  match drop_prefix ("{" +:+ dq +:+ "id" +:+ dq +:+ ":") s with
  | Some rest =>
      match rev_string rest with
      | String "}" r =>
          match parseInt_string (rev_string r) with
          | Some n =>
              if String.eqb s (id_line n) then inr (VObj [("id", VNum n)])
              else inl "Unexpected token in JSON"
          | None => inl "Unexpected token in JSON"
          end
      | _ => inl "Unexpected end of JSON input"
      end
  | None => inl "Unexpected token in JSON"
  end.

(** A resource server that knows the given resources only. *)
Definition fetch_from (resources : list (string * list string))
    (url : value) : string + FetchResponse :=
  match url with
  | VStr u =>
      match List.find (fun kv => String.eqb kv.1 u) resources with
      | Some kv =>
          inr {| ok := true; f_status := 200; statusText := "OK";
                 body_lines := kv.2 |}
      | None =>
          inr {| ok := false; f_status := 404; statusText := "Not Found";
                 body_lines := [] |}
      end
  | _ => inl "Failed to parse URL"
  end.

(** A verifier that accepts the token equal to the secret. *)
Definition verify_secret (token secret : option string) : option value :=
  match token, secret with
  | Some tok, Some key =>
      if String.eqb tok key then Some (VObj [("sub", VStr "admin")])
      else None
  | _, _ => None
  end.

End RefStore.

(** ** Scenario data *)

Definition row (n : Z) : value := VObj [("id", VNum n)].

(** A world whose store has the three tables, [movies] holding [rows], and
    whose log is empty. *)
Definition movies_with (rows : list value) : @World RefStore.t :=
  {| store := {[ "movies" := rows; "series" := []; "anime" := [] ]};
     trace := [] |}.

(** An NDJSON resource of three records among blank lines. *)
Definition new_ndjson : list string :=
  [RefStore.id_line 1; ""; RefStore.id_line 2; "   "; RefStore.id_line 3; ""].

Definition resources : list (string * list string) :=
  [("https://example.org/new.ndjson", new_ndjson)].

Definition secret : string := "s3cret".

Definition request (m : Method) (p : string) (q : gmap string string)
    (token : option string) (b : value) : Request :=
  {| method := m; path := p; query := VStr <$> q;
     headers :=
       match token with
       | Some t => {[ "authorization" := "Bearer " +:+ t ]}
       | None => ∅
       end;
     body := b; params := ∅; user := None |}.

(** The application on the reference store. *)
Definition app (fuel : nat) (req : Request) : M Response :=
  handle RefStore.exec (RefStore.fetch_from resources)
    RefStore.parse_id_object Js.trim RefStore.verify_secret (Some secret)
    fuel req.

Definition rows45 : list value := map row (seqZ 1 45).

Definition film (n : Z) (title : string) : value :=
  VObj [("id", VNum n); ("original_title", VStr title)].

Definition films : list value :=
  [film 1 "The Matrix"; film 2 "Alien"; film 3 "The Matrix Reloaded"].

(** A resource with a line that is not JSON after three records, and a
    world without the table the records are meant for. *)
Definition broken_ndjson : list string :=
  [RefStore.id_line 1; RefStore.id_line 2; RefStore.id_line 3; "not json";
   RefStore.id_line 4].

Definition more_resources : list (string * list string) :=
  [("https://example.org/new.ndjson", new_ndjson);
   ("https://example.org/broken.ndjson", broken_ndjson)].

Definition no_tables : @World RefStore.t := {| store := ∅; trace := [] |}.

(** * Properties *)

(** ** The JavaScript helpers on small inputs *)

Example slice_relative_end : slice [1; 2; 3] 0 (-1) = [1; 2].
Proof. reflexivity. Qed.

Example slice_crossed : slice [1; 2; 3] (-1) (-2) = [].
Proof. reflexivity. Qed.

Example slice_past_the_end : slice [1; 2; 3] 2 4 = [3].
Proof. reflexivity. Qed.

Example parseInt_cases :
  parseInt_string "2" = Some 2 /\ parseInt_string " 42px" = Some 42 /\
  parseInt_string "-7" = Some (-7) /\ parseInt_string "0x1F" = Some 31 /\
  parseInt_string "abc" = None /\ parseInt_string "" = None /\
  parseInt Js.trim (Some (VArr [VStr "10"; VStr "20"])) = Some 10 /\
  parseInt Js.trim (Some (VObj [("a", VStr "1")])) = None /\
  parseInt Js.trim None = None.
Proof. repeat split; reflexivity. Qed.

Example or_default_cases :
  or_default (Some 7) 30 = 7 /\ or_default (Some 0) 30 = 30 /\
  or_default None 30 = 30.
Proof. repeat split; reflexivity. Qed.

Example trim_both_ends : trim "  The Matrix   " = "The Matrix".
Proof. reflexivity. Qed.

Example split_bearer :
  split_on " " "Bearer abc.def" = ["Bearer"; "abc.def"] /\
  split_on " " "abc" !! 1%nat = None.
Proof. split; reflexivity. Qed.

Example ceil_div_cases :
  ceil_div 45 30 = 2 /\ ceil_div 60 30 = 2 /\ ceil_div 61 30 = 3 /\
  ceil_div 0 30 = 0.
Proof. repeat split; reflexivity. Qed.

Example is_numeric_cases :
  is_numeric "123" = true /\ is_numeric "search" = false /\
  is_numeric "with-video" = false /\ is_numeric "" = false /\
  is_numeric "12a" = false.
Proof. repeat split; reflexivity. Qed.

(** ** chunkArray *)

Section ChunkArrayFacts.
Context {A : Type}.
Implicit Types (array l : list A) (size i : Z) (sz n k : nat).

Lemma slice_forward array i size :
  0 <= i < Z.of_nat (length array) -> 0 < size ->
  slice array i (i + size)
  = take (Z.to_nat size) (drop (Z.to_nat i) array).
Proof.
  intros Hi Hs. unfold slice.
  destruct (Z.ltb_spec i 0); [lia|].
  destruct (Z.ltb_spec (i + size) 0); [lia|].
  rewrite (Z.min_l i) by lia.
  destruct (Z.le_ge_cases (i + size) (Z.of_nat (length array))).
  - rewrite Z.min_l by lia. f_equal. lia.
  - rewrite Z.min_r by lia.
    rewrite !take_ge; [done| |]; rewrite length_drop; lia.
Qed.

Lemma slice_same array i : slice array i i = [].
Proof. unfold slice. by rewrite Z.sub_diag. Qed.

Lemma pieces_unfold n sz l :
  l <> [] ->
  pieces (S n) sz l = take sz l :: pieces n sz (drop sz l).
Proof. by destruct l. Qed.

Lemma pieces_enough n m sz l :
  (0 < sz)%nat -> (length l <= n)%nat -> (length l <= m)%nat ->
  pieces n sz l = pieces m sz l.
Proof.
  intros Hsz. revert m l.
  induction n as [|n IH]; intros m l Hn Hm.
  - destruct l; [by destruct m | simpl in Hn; lia].
  - destruct l as [|x l]; [by destruct m|].
    destruct m as [|m]; [simpl in Hm; lia|].
    rewrite !pieces_unfold by done. f_equal.
    apply IH; rewrite length_drop; simpl in *; lia.
Qed.

Lemma chunks_of_nil sz : chunks_of sz (@nil A) = [].
Proof. done. Qed.

Lemma chunks_of_unfold sz l :
  (0 < sz)%nat -> l <> [] ->
  chunks_of sz l = take sz l :: chunks_of sz (drop sz l).
Proof.
  intros Hsz Hl. unfold chunks_of.
  destruct l as [|x l]; [done|].
  change (length (x :: l)) with (S (length l)).
  rewrite pieces_unfold by done. f_equal.
  apply pieces_enough; [done| |done].
  rewrite length_drop. simpl. lia.
Qed.

(** The loop computes the pieces of what is left of the array. *)
Lemma chunk_loop_pieces fuel array size i result :
  0 < size -> 0 <= i ->
  (Z.to_nat (Z.of_nat (length array) - i) < fuel)%nat ->
  chunk_loop fuel array size (i, result)
  = Some (result ++ chunks_of (Z.to_nat size) (drop (Z.to_nat i) array)).
Proof.
  intros Hs. revert i result.
  induction fuel as [|fuel IH]; intros i result Hi Hfuel; [lia|].
  simpl. destruct (Z.ltb_spec i (Z.of_nat (length array))) as [Hlt|Hge].
  - rewrite IH by lia.
    rewrite slice_forward by lia.
    rewrite (chunks_of_unfold _ (drop (Z.to_nat i) array)); [|lia|].
    + rewrite drop_drop, <- app_assoc. simpl.
      by rewrite Z2Nat.inj_add by lia.
    + intros Hnil. apply (f_equal length) in Hnil.
      rewrite length_drop in Hnil. simpl in Hnil. lia.
  - simpl. rewrite drop_ge by lia. by rewrite chunks_of_nil, app_nil_r.
Qed.

Lemma chunkArray_chunks_of fuel array size :
  0 < size -> (length array < fuel)%nat ->
  chunkArray fuel array size = Some (chunks_of (Z.to_nat size) array).
Proof.
  intros Hs Hfuel. unfold chunkArray.
  rewrite chunk_loop_pieces by lia. done.
Qed.

(** Induction along the pieces. *)
Lemma chunks_of_ind sz (P : list A -> Prop) :
  (0 < sz)%nat ->
  P [] ->
  (forall l, l <> [] -> P (drop sz l) -> P l) ->
  forall l, P l.
Proof.
  intros Hsz Hnil Hstep l.
  remember (length l) as n eqn:Hn.
  revert l Hn. induction (lt_wf n) as [n _ IH]. intros l ->.
  destruct l as [|x l]; [done|].
  apply Hstep; [done|].
  eapply IH; [|done]. rewrite length_drop. simpl. lia.
Qed.

Lemma chunks_of_concat sz l :
  (0 < sz)%nat -> concat (chunks_of sz l) = l.
Proof.
  intros Hsz. pattern l. apply (chunks_of_ind sz); [done|done|].
  clear l. intros l Hl IH.
  rewrite chunks_of_unfold by done. simpl.
  by rewrite IH, take_drop.
Qed.

Lemma chunks_of_lookup sz l k c :
  (0 < sz)%nat -> chunks_of sz l !! k = Some c ->
  c = take sz (drop (k * sz) l) /\ c <> [].
Proof.
  intros Hsz. revert k.
  pattern l. apply (chunks_of_ind sz); [done|done|].
  clear l. intros l Hl IH k.
  rewrite chunks_of_unfold by done.
  destruct k as [|k]; simpl.
  - intros [= <-]. split; [done|].
    destruct l; [done|]. by destruct sz; [lia|].
  - intros Hk. apply IH in Hk as [-> Hne]. split; [|done].
    rewrite drop_drop. do 2 f_equal; lia.
Qed.

Lemma chunks_of_length_le sz l :
  (0 < sz)%nat -> Forall (fun c => (length c <= sz)%nat) (chunks_of sz l).
Proof.
  intros Hsz. apply Forall_lookup. intros k c Hk.
  apply chunks_of_lookup in Hk as [-> _]; [|done].
  rewrite length_take. lia.
Qed.

Lemma chunks_of_full sz l k c :
  (0 < sz)%nat -> chunks_of sz l !! k = Some c ->
  (S k < length (chunks_of sz l))%nat -> length c = sz.
Proof.
  intros Hsz. revert k.
  pattern l. apply (chunks_of_ind sz); [done|done|].
  clear l. intros l Hl IH k.
  rewrite chunks_of_unfold by done.
  destruct k as [|k]; simpl.
  - intros [= <-] Hlen.
    destruct (chunks_of sz (drop sz l)) as [|c' cs] eqn:Hrest;
      [simpl in Hlen; lia|].
    assert (drop sz l <> []) as Hd by (intros E; by rewrite E in Hrest).
    rewrite length_take.
    assert (length (drop sz l) <> 0)%nat as Hd'
      by (by destruct (drop sz l)).
    rewrite length_drop in Hd'. lia.
  - intros Hk Hlen. apply (IH k); [done|lia].
Qed.

Lemma chunks_of_length sz l :
  (0 < sz)%nat -> (length l <= sz)%nat -> l <> [] -> chunks_of sz l = [l].
Proof.
  intros Hsz Hle Hl. rewrite chunks_of_unfold by done.
  rewrite take_ge, drop_ge by lia. done.
Qed.

(** With a size that is not positive the index never passes the length
    of a non-empty array. *)
Lemma chunk_loop_stuck fuel array size i result :
  size <= 0 -> i <= 0 -> array <> [] ->
  chunk_loop fuel array size (i, result) = None.
Proof.
  intros Hs. revert i result.
  induction fuel as [|fuel IH]; intros i result Hi Hne; [done|].
  simpl. destruct (Z.ltb_spec i (Z.of_nat (length array))) as [Hlt|Hge].
  - apply IH; [lia|done].
  - destruct array; [done|]. simpl in Hge. lia.
Qed.

Lemma chunk_iter_zero n array result :
  array <> [] ->
  chunk_iter n array 0 (0, result) = Some (0, result ++ replicate n []).
Proof.
  intros Hne. revert result.
  induction n as [|n IH]; intros result; simpl.
  - by rewrite app_nil_r.
  - destruct (Z.ltb_spec 0 (Z.of_nat (length array))) as [Hlt|Hge].
    + change (0 + 0) with 0. rewrite slice_same, IH, <- app_assoc. done.
    + destruct array; [done|]. simpl in Hge. lia.
Qed.

(** C1. For every array and every positive integer size, [chunkArray]
    returns (with fuel for one turn per element and the final test of the
    guard) a list of chunks such that: their concatenation is the array;
    chunk number [k] is the slice of the array from [k * size] to
    [k * size + size], so the chunks do not overlap and come in the
    original order; every chunk has at most [size] elements; every chunk
    but possibly the last has exactly [size] elements. *)
Theorem chunkArray_partition array size :
  0 < size ->
  exists chunks : list (list A),
    (forall fuel, (length array < fuel)%nat ->
       chunkArray fuel array size = Some chunks) /\
    concat chunks = array /\
    (forall k c, chunks !! k = Some c ->
       c = slice array (Z.of_nat k * size) (Z.of_nat k * size + size)) /\
    Forall (fun c => Z.of_nat (length c) <= size) chunks /\
    (forall k c, chunks !! k = Some c -> (S k < length chunks)%nat ->
       Z.of_nat (length c) = size).
Proof.
  intros Hs. exists (chunks_of (Z.to_nat size) array).
  assert (0 < Z.to_nat size)%nat as Hsz by lia.
  split; [|split; [|split; [|split]]].
  - intros fuel Hfuel. by apply chunkArray_chunks_of.
  - by apply chunks_of_concat.
  - intros k c Hk.
    destruct (chunks_of_lookup _ _ _ _ Hsz Hk) as [Hc Hne].
    destruct (decide (Z.of_nat k * size < Z.of_nat (length array)))
      as [Hin|Hout].
    + rewrite slice_forward by lia. rewrite Hc. do 2 f_equal. nia.
    + exfalso. apply Hne. rewrite Hc, drop_ge; [apply take_nil|]. nia.
  - eapply Forall_impl; [by apply chunks_of_length_le|].
    simpl. intros c Hc. lia.
  - intros k c Hk Hlast.
    rewrite (chunks_of_full _ _ _ _ Hsz Hk Hlast). lia.
Qed.

(** C3, as the code has it.  For every size that is not positive:
    on the empty array [chunkArray] returns no chunk at all; on a
    non-empty array the index never reaches the length, the loop does not
    end and nothing is returned; with size [0] every slice it pushes on
    the way is empty. *)
Theorem chunkArray_nonpositive array size :
  size <= 0 ->
  (array = [] ->
     forall fuel, (0 < fuel)%nat -> chunkArray fuel array size = Some []) /\
  (array <> [] -> forall fuel, chunkArray fuel array size = None) /\
  (array <> [] -> size = 0 ->
     forall n, chunk_iter n array size (0, []) = Some (0, replicate n [])).
Proof.
  intros Hs. split; [|split].
  - intros -> fuel Hfuel. destruct fuel; [lia|]. done.
  - intros Hne fuel. by apply chunk_loop_stuck.
  - intros Hne -> n. by rewrite chunk_iter_zero.
Qed.

End ChunkArrayFacts.

Lemma chunkArray_partition_witness :
  exists chunks : list (list Z),
    (forall fuel, (length [1; 2; 3; 4; 5] < fuel)%nat ->
       chunkArray fuel [1; 2; 3; 4; 5] 2 = Some chunks) /\
    concat chunks = [1; 2; 3; 4; 5] /\
    (forall k c, chunks !! k = Some c ->
       c = slice [1; 2; 3; 4; 5] (Z.of_nat k * 2) (Z.of_nat k * 2 + 2)) /\
    Forall (fun c => Z.of_nat (length c) <= 2) chunks /\
    (forall k c, chunks !! k = Some c -> (S k < length chunks)%nat ->
       Z.of_nat (length c) = 2).
Proof. apply (chunkArray_partition [1; 2; 3; 4; 5] 2). lia. Defined.

Example chunkArray_five_by_two :
  chunkArray 6 [1; 2; 3; 4; 5] 2 = Some [[1; 2]; [3; 4]; [5]].
Proof. reflexivity. Qed.

Lemma chunkArray_nonpositive_witness :
  ([7] = [] ->
     forall fuel, (0 < fuel)%nat -> chunkArray fuel [7] 0 = Some []) /\
  ([7] <> [] -> forall fuel, chunkArray fuel [7] 0 = None) /\
  ([7] <> [] -> 0 = 0 ->
     forall n, chunk_iter n [7] 0 (0, []) = Some (0, replicate n [])).
Proof. apply (chunkArray_nonpositive [7] 0). lia. Defined.

(** C3 as stated fails: with size [-1] the loop on [[1; 2; 3]] never ends,
    and the first slice it pushes, [slice(0, -1)], has two elements. *)
Lemma chunkArray_negative_size_diverges :
  ~ (exists fuel chunks, chunkArray fuel [1; 2; 3] (-1) = Some chunks) /\
  chunk_iter 1 [1; 2; 3] (-1) (0, []) = Some (-1, [[1; 2]]).
Proof.
  split; [|reflexivity].
  intros (fuel & chunks & H). unfold chunkArray in H.
  by rewrite chunk_loop_stuck in H.
Qed.

(** ** insertChunks *)

Section InsertChunksFacts.
Context {B : Type}.
Variable exec : Call -> B -> Reply * B.
Implicit Types (w : @World B) (b : B) (chunks : list (list value)).

Lemma logged_nil w : logged w [] (store w) = w.
Proof. destruct w. unfold logged. simpl. by rewrite app_nil_r. Qed.

Lemma logged_cons w c cs b1 b :
  logged {| store := b1; trace := trace w ++ [c] |} cs b
  = logged w (c :: cs) b.
Proof. unfold logged. simpl. by rewrite <- app_assoc. Qed.

(** Either every call succeeds, or there is a first one that fails. *)
Lemma run_ok_or_first_failure cs b :
  (exists b', run_ok exec cs b = Some b') \/
  (exists k b1 c reply b' e,
      run_ok exec (take k cs) b = Some b1 /\ cs !! k = Some c /\
      exec c b1 = (reply, b') /\ r_error reply = Some e).
Proof.
  revert b. induction cs as [|c cs IH]; intros b.
  - left. by exists b.
  - destruct (exec c b) as [reply b1] eqn:Hexec.
    destruct (r_error reply) as [e|] eqn:Herr.
    + right. exists 0%nat, b, c, reply, b1, e. done.
    + destruct (IH b1) as [[b' Hok]|(k & b2 & c' & reply' & b' & e & Hk)].
      * left. exists b'. simpl. by rewrite Hexec, Herr.
      * right. exists (S k), b2, c', reply', b', e. simpl.
        by rewrite Hexec, Herr.
Qed.

Lemma insert_loop_ok T mode n chunks : forall i total w b',
  run_ok exec (map (write_call T mode) chunks) (store w) = Some b' ->
  insert_loop exec T mode n i chunks total w
  = Ret {| error := None;
           insertedTotal := total + Z.of_nat (length (concat chunks)) |}
        (logged w (map (write_call T mode) chunks) b').
Proof.
  induction chunks as [|chunk rest IH]; intros i total w b' Hrun.
  - simpl in *. injection Hrun as <-.
    by rewrite logged_nil, Z.add_0_r.
  - simpl in *. unfold bind, call.
    destruct (exec _ (store w)) as [reply b1].
    destruct (r_error reply); [done|].
    erewrite IH by exact Hrun.
    rewrite logged_cons, length_app. do 2 f_equal. lia.
Qed.

Lemma insert_loop_fail T mode n chunks :
  forall k i total w b c reply b' e,
  run_ok exec (take k (map (write_call T mode) chunks)) (store w) = Some b ->
  map (write_call T mode) chunks !! k = Some c ->
  exec c b = (reply, b') -> r_error reply = Some e ->
  insert_loop exec T mode n i chunks total w
  = Ret {| error := Some (chunk_failed (i + k) n e);
           insertedTotal :=
             total + Z.of_nat (length (concat (take k chunks))) |}
        (logged w (take (S k) (map (write_call T mode) chunks)) b').
Proof.
  induction chunks as [|chunk rest IH];
    intros k i total w b c reply b' e Hrun Hk Hexec Herr; [done|].
  destruct k as [|k]; simpl in *; unfold bind, call.
  - injection Hrun as <-. injection Hk as <-.
    rewrite Hexec, Herr. unfold ret, logged. simpl.
    by rewrite Nat.add_0_r, Z.add_0_r, take_0.
  - destruct (exec _ (store w)) as [reply0 b0].
    destruct (r_error reply0); [done|].
    erewrite IH by eauto.
    rewrite logged_cons, length_app, Nat.add_succ_r. do 2 f_equal. lia.
Qed.

(** C2, for positive chunk sizes.  [insertChunks] always returns.  If no
    chunk's write reports an error, every chunk has been written, in
    order, and the result is the number of input rows with no error.  If
    the write of chunk [k] (counted from 0) is the first to report an
    error, the writes made are those of chunks [0 .. k] and no later one,
    and the result carries the number of rows of chunks [0 .. k-1] and the
    message "Chunk k+1/n failed: " followed by the store's error text. *)
Theorem insertChunks_stops_at_first_error fuel T rows chunkSize mode w :
  0 < chunkSize -> (length rows < fuel)%nat ->
  exists chunks,
    chunkArray fuel rows chunkSize = Some chunks /\
    (exists r w', insertChunks exec fuel T rows chunkSize mode w = Ret r w') /\
    (forall b',
       run_ok exec (map (write_call T mode) chunks) (store w) = Some b' ->
       insertChunks exec fuel T rows chunkSize mode w
       = Ret {| error := None; insertedTotal := Z.of_nat (length rows) |}
             (logged w (map (write_call T mode) chunks) b')) /\
    (forall k b c reply b' e,
       run_ok exec (take k (map (write_call T mode) chunks)) (store w)
       = Some b ->
       map (write_call T mode) chunks !! k = Some c ->
       exec c b = (reply, b') -> r_error reply = Some e ->
       insertChunks exec fuel T rows chunkSize mode w
       = Ret {| error :=
                  Some ("Chunk " +:+ num_to_string (Z.of_nat k + 1) +:+ "/"
                        +:+ num_to_string (Z.of_nat (length chunks))
                        +:+ " failed: " +:+ message e);
                insertedTotal :=
                  Z.of_nat (length (concat (take k chunks))) |}
             (logged w (take (S k) (map (write_call T mode) chunks)) b')).
Proof.
  intros Hs Hfuel. exists (chunks_of (Z.to_nat chunkSize) rows).
  assert (chunkArray fuel rows chunkSize
          = Some (chunks_of (Z.to_nat chunkSize) rows)) as Hchunks
    by by apply chunkArray_chunks_of.
  assert (forall b',
    run_ok exec (map (write_call T mode) (chunks_of (Z.to_nat chunkSize) rows))
      (store w) = Some b' ->
    insertChunks exec fuel T rows chunkSize mode w
    = Ret {| error := None; insertedTotal := Z.of_nat (length rows) |}
          (logged w (map (write_call T mode)
                       (chunks_of (Z.to_nat chunkSize) rows)) b')) as Hok.
  { intros b' Hrun. unfold insertChunks. rewrite Hchunks.
    erewrite insert_loop_ok by exact Hrun.
    rewrite chunks_of_concat by lia. done. }
  assert (forall k b c reply b' e,
    run_ok exec (take k (map (write_call T mode)
                           (chunks_of (Z.to_nat chunkSize) rows))) (store w)
    = Some b ->
    map (write_call T mode) (chunks_of (Z.to_nat chunkSize) rows) !! k
    = Some c ->
    exec c b = (reply, b') -> r_error reply = Some e ->
    insertChunks exec fuel T rows chunkSize mode w
    = Ret {| error :=
               Some (chunk_failed k
                       (length (chunks_of (Z.to_nat chunkSize) rows)) e);
             insertedTotal :=
               Z.of_nat (length (concat (take k
                           (chunks_of (Z.to_nat chunkSize) rows)))) |}
          (logged w (take (S k) (map (write_call T mode)
                       (chunks_of (Z.to_nat chunkSize) rows))) b')) as Hfail.
  { intros k b c reply b' e Hrun Hk Hexec Herr.
    unfold insertChunks. rewrite Hchunks.
    by erewrite insert_loop_fail by eauto. }
  split; [done|]. split; [|split; [done|exact Hfail]].
  destruct (run_ok_or_first_failure
              (map (write_call T mode) (chunks_of (Z.to_nat chunkSize) rows))
              (store w))
    as [[b' Hrun]|(k & b & c & reply & b' & e & Hrun & Hk & Hexec & Herr)].
  - eexists _, _. by apply Hok.
  - eexists _, _. by eapply Hfail.
Qed.

End InsertChunksFacts.

Lemma insertChunks_stops_at_first_error_witness :
  0 < 2 /\ (length [row 1; row 2; row 3; row 2; row 5] < 6)%nat /\
  exists chunks,
    chunkArray 6 [row 1; row 2; row 3; row 2; row 5] 2 = Some chunks /\
    (exists r w',
       insertChunks RefStore.exec 6 "movies"
         [row 1; row 2; row 3; row 2; row 5] 2 "insert" (movies_with [])
       = Ret r w') /\
    (forall b',
       run_ok RefStore.exec (map (write_call "movies" "insert") chunks)
         (store (movies_with [])) = Some b' ->
       insertChunks RefStore.exec 6 "movies"
         [row 1; row 2; row 3; row 2; row 5] 2 "insert" (movies_with [])
       = Ret {| error := None;
                insertedTotal :=
                  Z.of_nat (length [row 1; row 2; row 3; row 2; row 5]) |}
             (logged (movies_with [])
                (map (write_call "movies" "insert") chunks) b')) /\
    (forall k b c reply b' e,
       run_ok RefStore.exec
         (take k (map (write_call "movies" "insert") chunks))
         (store (movies_with [])) = Some b ->
       map (write_call "movies" "insert") chunks !! k = Some c ->
       RefStore.exec c b = (reply, b') -> r_error reply = Some e ->
       insertChunks RefStore.exec 6 "movies"
         [row 1; row 2; row 3; row 2; row 5] 2 "insert" (movies_with [])
       = Ret {| error :=
                  Some ("Chunk " +:+ num_to_string (Z.of_nat k + 1) +:+ "/"
                        +:+ num_to_string (Z.of_nat (length chunks))
                        +:+ " failed: " +:+ message e);
                insertedTotal :=
                  Z.of_nat (length (concat (take k chunks))) |}
             (logged (movies_with [])
                (take (S k) (map (write_call "movies" "insert") chunks)) b')).
Proof.
  split; [lia|]. split; [simpl; lia|].
  apply (insertChunks_stops_at_first_error RefStore.exec 6 "movies"
           [row 1; row 2; row 3; row 2; row 5] 2 "insert" (movies_with []));
    [lia | simpl; lia].
Defined.

(** C2 as stated, for every chunk size, fails: with chunk size [0] and one
    row [chunkArray] never returns, so no write is made, none fails, and
    [insertChunks] returns nothing. *)
Lemma insertChunks_zero_size_never_returns :
  ~ exists fuel r w',
      insertChunks RefStore.exec fuel "movies" [row 1] 0 "skip"
        (movies_with [])
      = Ret r w'.
Proof.
  intros (fuel & r & w' & H). unfold insertChunks, chunkArray in H.
  by rewrite chunk_loop_stuck in H.
Qed.

(** *** Scenarios on the reference store *)

Example insertChunks_insert_duplicate :
  insertChunks RefStore.exec 6 "movies" [row 1; row 2; row 3; row 2; row 5] 2
    "insert" (movies_with [])
  = Ret {| error := Some "Chunk 2/3 failed: duplicate key value violates unique constraint";
           insertedTotal := 2 |}
        {| store := store (movies_with [row 1; row 2]);
           trace := [CInsert "movies" [row 1; row 2] false;
                     CInsert "movies" [row 3; row 2] false] |}.
Proof. vm_compute. reflexivity. Qed.

Example insertChunks_skip_duplicate :
  insertChunks RefStore.exec 6 "movies" [row 1; row 2; row 3; row 2; row 5] 2
    "skip" (movies_with [])
  = Ret {| error := None; insertedTotal := 5 |}
        {| store := store (movies_with [row 1; row 2; row 3; row 5]);
           trace := [CUpsert "movies" [row 1; row 2] "id" true;
                     CUpsert "movies" [row 3; row 2] "id" true;
                     CUpsert "movies" [row 5] "id" true] |}.
Proof. vm_compute. reflexivity. Qed.

(** ** ingestNdjsonFromUrl *)

Section IngestFacts.
Context {B : Type}.
Variable exec : Call -> B -> Reply * B.
Variable fetch : value -> string + FetchResponse.
Variable JSON_parse : string -> string + value.
Variable trim : string -> string.
Implicit Types (w : @World B) (b : B) (buffer objs : list value).

Lemma logged_logged w cs1 b1 cs2 b2 :
  logged (logged w cs1 b1) cs2 b2 = logged w (cs1 ++ cs2) b2.
Proof. unfold logged. simpl. by rewrite app_assoc. Qed.

Lemma bind_Ret {X Y} (m : M X) (k : X -> M Y) w x w1 :
  m w = Ret x w1 -> bind m k w = k x w1.
Proof. intros H. unfold bind. by rewrite H. Qed.

(** A buffer that fits in one chunk is flushed with one upsert that skips
    duplicates. *)
Lemma flush_one fuel T buffer chunkSize total w reply b1 :
  buffer <> [] -> Z.of_nat (length buffer) <= chunkSize ->
  (length buffer < fuel)%nat ->
  exec (CUpsert T buffer "id" true) (store w) = (reply, b1) ->
  r_error reply = None ->
  flush exec fuel T buffer chunkSize total w
  = Ret (total + Z.of_nat (length buffer))
        (logged w [CUpsert T buffer "id" true] b1).
Proof.
  intros Hne Hle Hfuel Hexec Herr.
  assert (0 < length buffer)%nat as Hpos
    by (destruct buffer; [done|simpl; lia]).
  unfold flush, insertChunks.
  rewrite chunkArray_chunks_of by lia.
  rewrite chunks_of_length by (done || lia).
  unfold bind. simpl. unfold bind, call. simpl.
  change (write_call T "skip" buffer) with (CUpsert T buffer "id" true).
  rewrite Hexec, Herr. done.
Qed.

Lemma chunks_of_full_prefix sz buffer objs :
  (0 < sz)%nat -> length buffer = sz ->
  chunks_of sz (buffer ++ objs) = buffer :: chunks_of sz objs.
Proof.
  intros Hsz Hlen. rewrite chunks_of_unfold; [|done|].
  - by rewrite take_app_length', drop_app_length'.
  - destruct buffer; [simpl in *; lia|done].
Qed.

(** The loop over the lines followed by the last flush writes the values
    of the lines chunk by chunk. *)
Lemma ingest_lines_flushes fuel T chunkSize lines :
  0 < chunkSize -> (Z.to_nat chunkSize < fuel)%nat ->
  forall buffer total w objs b',
  Z.of_nat (length buffer) < chunkSize ->
  parse_lines JSON_parse trim lines = inr objs ->
  run_ok exec
    (map (fun c => CUpsert T c "id" true)
       (chunks_of (Z.to_nat chunkSize) (buffer ++ objs))) (store w)
  = Some b' ->
  bind (ingest_lines exec JSON_parse trim fuel T chunkSize lines buffer total)
    (fun '(buffer, total) =>
       if negb (length buffer =? 0)%nat
       then flush exec fuel T buffer chunkSize total
       else ret total) w
  = Ret (total + Z.of_nat (length (buffer ++ objs)))
        (logged w
           (map (fun c => CUpsert T c "id" true)
              (chunks_of (Z.to_nat chunkSize) (buffer ++ objs))) b').
Proof.
  intros Hs Hfuel.
  induction lines as [|line rest IH]; intros buffer total w objs b' Hbuf Hp Hrun.
  - simpl in Hp. injection Hp as <-. rewrite app_nil_r in *.
    simpl. unfold bind, ret. simpl.
    destruct buffer as [|x buffer].
    + simpl in *. injection Hrun as <-.
      by rewrite logged_nil, Z.add_0_r.
    + rewrite chunks_of_length in * by (simpl in *; lia || done).
      simpl in Hrun.
      destruct (exec _ (store w)) as [reply b1] eqn:Hexec.
      destruct (r_error reply) eqn:Herr; [done|]. injection Hrun as <-.
      simpl negb. cbv iota.
      apply (flush_one _ _ _ _ _ _ reply); simpl in *; (done || lia).
  - simpl in Hp. simpl ingest_lines.
    destruct (String.eqb (trim line) ""); [by apply IH|].
    destruct (JSON_parse (trim line)) as [e|obj]; [done|].
    destruct (parse_lines JSON_parse trim rest) as [e|objs'] eqn:Hrest; [done|].
    injection Hp as <-.
    replace (buffer ++ obj :: objs') with ((buffer ++ [obj]) ++ objs') in *
      by by rewrite <- app_assoc.
    destruct (Z.geb_spec (Z.of_nat (length (buffer ++ [obj]))) chunkSize)
      as [Hfull|Hroom].
    + assert (length (buffer ++ [obj]) = Z.to_nat chunkSize) as Hlen
        by (rewrite length_app in *; simpl in *; lia).
      rewrite chunks_of_full_prefix in * by (done || lia).
      simpl in Hrun.
      destruct (exec _ (store w)) as [reply b1] eqn:Hexec.
      destruct (r_error reply) eqn:Herr; [done|].
      unfold bind at 1.
      erewrite (bind_Ret (flush _ _ _ _ _ _)); cycle 1.
      { apply (flush_one _ _ _ _ _ _ reply); try done; try lia.
        by destruct buffer. }
      specialize (IH [] (total + Z.of_nat (length (buffer ++ [obj])))
                    (logged w [CUpsert T (buffer ++ [obj]) "id" true] b1)
                    objs' b').
      unfold bind at 1 in IH. rewrite IH; [| simpl; lia | done | done].
      rewrite logged_logged, !length_app. simpl.
      f_equal. lia.
    + apply IH; [lia|done|done].
Qed.

(** C4.  When the resource is fetched, its non-blank lines parse to
    [objs] and the store accepts the writes, [ingestNdjsonFromUrl] with a
    positive chunk size makes exactly one upsert in skip mode
    ([ignoreDuplicates]) for each consecutive group of [chunkSize] values,
    and one more for the values left at the end of the stream, and returns
    the number of values.  In particular three values with chunk size 2
    give two writes, of 2 and then 1 records, and the total 3. *)
Theorem ingestNdjsonFromUrl_flushes fuel T fileUrl chunkSize w resp objs b' :
  0 < chunkSize -> (Z.to_nat chunkSize < fuel)%nat ->
  fetch fileUrl = inr resp -> ok resp = true ->
  parse_lines JSON_parse trim (body_lines resp) = inr objs ->
  run_ok exec
    (map (fun c => CUpsert T c "id" true)
       (chunks_of (Z.to_nat chunkSize) objs)) (store w) = Some b' ->
  ingestNdjsonFromUrl exec fetch JSON_parse trim fuel T fileUrl chunkSize w
  = Ret (Z.of_nat (length objs))
        (logged w
           (map (fun c => CUpsert T c "id" true)
              (chunks_of (Z.to_nat chunkSize) objs)) b')
  /\ (forall x y z, chunkSize = 2 -> objs = [x; y; z] ->
        ingestNdjsonFromUrl exec fetch JSON_parse trim fuel T fileUrl chunkSize w
        = Ret 3 (logged w [CUpsert T [x; y] "id" true;
                           CUpsert T [z] "id" true] b')).
Proof.
  intros Hs Hfuel Hfetch Hok Hparse Hrun.
  assert (ingestNdjsonFromUrl exec fetch JSON_parse trim fuel T fileUrl chunkSize w
          = Ret (Z.of_nat (length objs))
              (logged w
                 (map (fun c => CUpsert T c "id" true)
                    (chunks_of (Z.to_nat chunkSize) objs)) b')) as Hgen.
  { unfold ingestNdjsonFromUrl. rewrite Hfetch, Hok.
    apply (ingest_lines_flushes fuel T chunkSize (body_lines resp) Hs Hfuel
             [] 0 w objs b'); [simpl; lia | done | done]. }
  split; [done|].
  intros x y z -> ->. by rewrite Hgen.
Qed.

End IngestFacts.

Lemma ingestNdjsonFromUrl_flushes_witness :
  ingestNdjsonFromUrl RefStore.exec (RefStore.fetch_from resources)
    RefStore.parse_id_object Js.trim 3 "movies" (VStr "https://example.org/new.ndjson")
    2 (movies_with [row 1])
  = Ret (Z.of_nat (length [row 1; row 2; row 3]))
        (logged (movies_with [row 1])
           (map (fun c => CUpsert "movies" c "id" true)
              (chunks_of (Z.to_nat 2) [row 1; row 2; row 3]))
           (store (movies_with [row 1; row 2; row 3])))
  /\ (forall x y z, 2 = 2 -> [row 1; row 2; row 3] = [x; y; z] ->
        ingestNdjsonFromUrl RefStore.exec (RefStore.fetch_from resources)
          RefStore.parse_id_object Js.trim 3 "movies"
          (VStr "https://example.org/new.ndjson") 2 (movies_with [row 1])
        = Ret 3 (logged (movies_with [row 1])
                   [CUpsert "movies" [x; y] "id" true;
                    CUpsert "movies" [z] "id" true]
                   (store (movies_with [row 1; row 2; row 3])))).
Proof.
  apply (ingestNdjsonFromUrl_flushes RefStore.exec
           (RefStore.fetch_from resources) RefStore.parse_id_object Js.trim
           3 "movies" (VStr "https://example.org/new.ndjson") 2
           (movies_with [row 1])
           {| ok := true; f_status := 200; statusText := "OK";
              body_lines := new_ndjson |}
           [row 1; row 2; row 3]
           (store (movies_with [row 1; row 2; row 3])));
    [lia | simpl; lia | reflexivity | reflexivity
    | vm_compute; reflexivity | vm_compute; reflexivity].
Defined.

Example ingest_three_lines :
  ingestNdjsonFromUrl RefStore.exec (RefStore.fetch_from resources)
    RefStore.parse_id_object Js.trim 3 "movies" (VStr "https://example.org/new.ndjson")
    2 (movies_with [])
  = Ret 3 {| store := store (movies_with [row 1; row 2; row 3]);
             trace := [CUpsert "movies" [row 1; row 2] "id" true;
                       CUpsert "movies" [row 3] "id" true] |}.
Proof. vm_compute. reflexivity. Qed.

(** ** authMiddleware and the route handlers *)

Section HandlerFacts.
Context {B : Type}.
Variable exec : Call -> B -> Reply * B.
Variable fetch : value -> string + FetchResponse.
Variable JSON_parse : string -> string + value.
Variable trim : string -> string.
Variable jwt_verify : option string -> option string -> option value.
Variable MY_API_KEY : option string.
Implicit Types (w : @World B) (b : B) (req : Request).

(** C7.  Without an Authorization header (an empty value counts as none)
    the middleware answers 401 Unauthorized and the handler is not run.
    With a header whose token, its second word, fails [jwt.verify]
    against the secret, it answers 403 Forbidden and the handler is not
    run.  When the token verifies, the handler runs on the request with
    the decoded claims attached as [req.user]. *)
Theorem authMiddleware_gate req (next : Request -> M Response) w :
  (headers req !! "authorization" = None \/
   headers req !! "authorization" = Some "" ->
   authMiddleware jwt_verify MY_API_KEY req next w
   = Ret (status_json 401 (error_body "Unauthorized")) w) /\
  (forall h, headers req !! "authorization" = Some h -> h <> "" ->
     jwt_verify (split_on " " h !! 1%nat) MY_API_KEY = None ->
     authMiddleware jwt_verify MY_API_KEY req next w
     = Ret (status_json 403 (error_body "Forbidden")) w) /\
  (forall h decoded, headers req !! "authorization" = Some h -> h <> "" ->
     jwt_verify (split_on " " h !! 1%nat) MY_API_KEY = Some decoded ->
     authMiddleware jwt_verify MY_API_KEY req next w
     = next (with_user req decoded) w /\
     user (with_user req decoded) = Some decoded).
Proof.
  unfold authMiddleware. split; [|split].
  - intros [-> | ->]; done.
  - intros h -> Hh Hv. apply String.eqb_neq in Hh. by rewrite Hh, Hv.
  - intros h decoded -> Hh Hv. apply String.eqb_neq in Hh.
    by rewrite Hh, Hv.
Qed.

(** C6, as the code has it.  The update route makes one call to the
    store.  It answers 400 with the store's message exactly when the
    store reports an error.  When the store reports none and returns a
    list of rows it answers 200 with the first of them: the updated row
    when a row matched, an empty body when the list is empty.  When the
    store reports none and returns [null] for the rows, reading the first
    row throws and the answer is 500.  It never answers 404. *)
Theorem update_handler_responses T req w reply b' :
  exec (CUpdate T (body req) [FEq "id" (param req "id")]) (store w)
  = (reply, b') ->
  (forall e, r_error reply = Some e ->
     update_handler exec T req w
     = Ret (status_json 400 (error_body (message e)))
           (logged w [CUpdate T (body req) [FEq "id" (param req "id")]] b'))
  /\
  (forall row rest, r_error reply = None -> r_data reply = VArr (row :: rest) ->
     update_handler exec T req w
     = Ret (json row)
           (logged w [CUpdate T (body req) [FEq "id" (param req "id")]] b'))
  /\
  (r_error reply = None -> r_data reply = VArr [] ->
     update_handler exec T req w
     = Ret {| status := 200; sent := VUndefined |}
           (logged w [CUpdate T (body req) [FEq "id" (param req "id")]] b'))
  /\
  (r_error reply = None -> r_data reply = VNull ->
     exists msg,
       update_handler exec T req w
       = Ret (status_json 500 (error_body msg))
             (logged w [CUpdate T (body req) [FEq "id" (param req "id")]] b'))
  /\
  (exists resp,
     update_handler exec T req w
     = Ret resp
           (logged w [CUpdate T (body req) [FEq "id" (param req "id")]] b')
     /\ status resp <> 404
     /\ (status resp = 400 <-> is_Some (r_error reply))).
Proof.
  intros Hexec.
  unfold update_handler, try_catch, bind, call. rewrite Hexec.
  split; [|split; [|split; [|split]]].
  - by intros e ->.
  - by intros row rest -> ->.
  - by intros -> ->.
  - intros -> ->. by eexists.
  - destruct (r_error reply) as [e|].
    + eexists. split; [done|]. simpl. split; [done|]. split; eauto.
    + destruct (index0 (r_data reply)) as [e|row]; simpl;
        (eexists; split; [done|]; simpl; split; [done|];
         split; [done|by intros [? ?]]).
Qed.

Lemma chunkSize_of_pos req : 1 <= chunkSize_of trim req.
Proof. unfold chunkSize_of. lia. Qed.

Lemma insertChunks_skip_ok fuel T rows chunkSize w b' :
  0 < chunkSize -> (length rows < fuel)%nat ->
  run_ok exec
    (map (fun c => CUpsert T c "id" true)
       (chunks_of (Z.to_nat chunkSize) rows)) (store w) = Some b' ->
  insertChunks exec fuel T rows chunkSize "skip" w
  = Ret {| error := None; insertedTotal := Z.of_nat (length rows) |}
        (logged w
           (map (fun c => CUpsert T c "id" true)
              (chunks_of (Z.to_nat chunkSize) rows)) b').
Proof.
  intros Hs Hfuel Hrun. unfold insertChunks.
  rewrite chunkArray_chunks_of by done.
  rewrite (insert_loop_ok exec T "skip" _ _ _ _ _ b') by exact Hrun.
  by rewrite chunks_of_concat by lia.
Qed.

(** C5, as the code has it.  The bulk-upload handler answers 400 when
    none of the three shapes is present.  It does not reject a request
    with more than one: an array body, and otherwise an array [items], is
    inserted whatever else the body holds (a [fileUrl] beside [items] is
    ignored), and [fileUrl] is read only when neither array is there.  The
    chunk size printed in the answer is the one used, for sizes up to 2^53,
    which the program holds and prints exactly. *)
Theorem bulk_upload_shapes fuel T req w :
  (isArray (body req) = false ->
   isArray (get "items" (body req)) = false ->
   truthy (get "fileUrl" (body req)) = false ->
   bulk_upload_handler exec fetch JSON_parse trim fuel T req w
   = Ret (status_json 400 (error_body
       "Provide either an array body, { items: [...] }, or { fileUrl } pointing to NDJSON"))
       w) /\
  (forall rows b',
     body req = VArr rows \/
     (isArray (body req) = false /\ get "items" (body req) = VArr rows) ->
     (length rows < fuel)%nat ->
     chunkSize_of trim req <= 2 ^ 53 ->
     run_ok exec
       (map (fun c => CUpsert T c "id" true)
          (chunks_of (Z.to_nat (chunkSize_of trim req)) rows)) (store w)
     = Some b' ->
     bulk_upload_handler exec fetch JSON_parse trim fuel T req w
     = Ret (json (message_body
              ("Inserted " +:+ num_to_string (Z.of_nat (length rows))
               +:+ " records into " +:+ T +:+ " in chunks of "
               +:+ num_to_string (chunkSize_of trim req))))
           (logged w
              (map (fun c => CUpsert T c "id" true)
                 (chunks_of (Z.to_nat (chunkSize_of trim req)) rows)) b')) /\
  (isArray (body req) = false ->
   isArray (get "items" (body req)) = false ->
   truthy (get "fileUrl" (body req)) = true ->
   chunkSize_of trim req <= 2 ^ 53 ->
   bulk_upload_handler exec fetch JSON_parse trim fuel T req w
   = try_catch
       (bind (ingestNdjsonFromUrl exec fetch JSON_parse trim fuel T
                (get "fileUrl" (body req)) (chunkSize_of trim req))
          (fun total =>
             ret (json (message_body
               ("Stream-inserted " +:+ num_to_string total
                +:+ " records into " +:+ T +:+ " in chunks of "
                +:+ num_to_string (chunkSize_of trim req)))))) w).
Proof.
  pose proof (chunkSize_of_pos req) as Hcs.
  split; [|split].
  - intros Hb Hi Hf. unfold bulk_upload_handler, try_catch.
    destruct (body req); simpl in *; try done;
      destruct (assoc "items" fields); simpl in *; try done;
      by rewrite Hf.
  - intros rows b' Hshape Hfuel _ Hrun.
    assert (insertChunks exec fuel T rows (chunkSize_of trim req) "skip" w
            = Ret {| error := None; insertedTotal := Z.of_nat (length rows) |}
                (logged w
                   (map (fun c => CUpsert T c "id" true)
                      (chunks_of (Z.to_nat (chunkSize_of trim req)) rows)) b'))
      as Hins by (apply insertChunks_skip_ok; [lia|done|done]).
    unfold bulk_upload_handler, try_catch, bind.
    destruct Hshape as [-> | [Hb ->]].
    + by rewrite Hins.
    + destruct (body req); simpl in *; try done; by rewrite Hins.
  - intros Hb Hi Hf _. unfold bulk_upload_handler, try_catch.
    destruct (body req); simpl in *; try done;
      destruct (assoc "items" fields); simpl in *; try done;
      by rewrite Hf.
Qed.

End HandlerFacts.

(** ** The list and search routes *)

Section ReadFacts.
Context {B : Type}.
Variable exec : Call -> B -> Reply * B.
Variable trim : string -> string.
Implicit Types (w : @World B) (b : B) (req : Request).

Lemma ceil_div_bounds total :
  limit * (ceil_div total limit - 1) < total <= limit * ceil_div total limit.
Proof.
  unfold ceil_div, limit.
  pose proof (Z.div_mod (- total) 30 ltac:(lia)).
  pose proof (Z.mod_pos_bound (- total) 30 ltac:(lia)).
  lia.
Qed.

Lemma range_of_eq page :
  range_of page = ((page - 1) * 30, (page - 1) * 30 + 29).
Proof. unfold range_of, limit. f_equal. lia. Qed.

(** C8.  For a page number in the range where the program's arithmetic
    is exact ([|page| <= 2^48], so that [(page - 1) * 30 + 29] is below
    2^53), the list route asks the store for rows [(page - 1) * 30] to
    [(page - 1) * 30 + 29] with an exact count, and answers
    [{page, total, totalPages, results}] where [total] is that count and
    [totalPages] its ceiling by 30.  On a store that serves a range of 45
    rows, page 2 gets 15 results (the rows after the first 30), total 45
    and totalPages 2. *)
Theorem list_handler_page T req w :
  (forall reply b' total,
     Z.abs (page_of trim req) <= 2 ^ 48 ->
     exec (CSelect T (Some CountExact) [] (Some "release_date")
             (Some ((page_of trim req - 1) * 30,
                    (page_of trim req - 1) * 30 + 29))
             false) (store w) = (reply, b') ->
     r_error reply = None -> r_count reply = Some total ->
     exists totalPages,
       list_handler exec trim T req w
       = Ret (json (VObj [ ("page", VNum (page_of trim req));
                           ("total", VNum total);
                           ("totalPages", VNum totalPages);
                           ("results", r_data reply) ]))
             (logged w
                [CSelect T (Some CountExact) [] (Some "release_date")
                   (Some ((page_of trim req - 1) * 30,
                          (page_of trim req - 1) * 30 + 29)) false] b')
       /\ 30 * (totalPages - 1) < total <= 30 * totalPages) /\
  (forall rows,
     page_of trim req = 2 -> length rows = 45%nat ->
     (forall from to,
        (exec (CSelect T (Some CountExact) [] (Some "release_date")
                 (Some (from, to)) false) (store w)).1
        = {| r_data := VArr (slice rows from (to + 1));
             r_error := None;
             r_count := Some (Z.of_nat (length rows)) |}) ->
     exists results w',
       list_handler exec trim T req w
       = Ret (json (VObj [ ("page", VNum 2);
                           ("total", VNum 45);
                           ("totalPages", VNum 2);
                           ("results", VArr results) ])) w'
       /\ length results = 15%nat /\ results = drop 30 rows).
Proof.
  split.
  - intros reply b' total _ Hexec Herr Hcount.
    exists (ceil_div total limit). split; [|apply ceil_div_bounds].
    unfold list_handler, paged_select, try_catch, bind, call.
    rewrite range_of_eq, Hexec, Herr. unfold page_body. by rewrite Hcount.
  - intros rows Hp Hlen Hrange.
    assert (slice rows 30 (59 + 1) = drop 30 rows) as Hslice.
    { unfold slice. rewrite Hlen.
      change (Z.to_nat (if 30 <? 0 then Z.max (Z.of_nat 45 + 30) 0
                        else Z.min 30 (Z.of_nat 45))) with 30%nat.
      apply take_ge. rewrite length_drop, Hlen. vm_compute. lia. }
    specialize (Hrange 30 59). rewrite Hslice, Hlen in Hrange.
    destruct (exec _ (store w)) as [reply b'] eqn:Hexec.
    simpl in Hrange. subst reply.
    exists (drop 30 rows). eexists.
    split; [|split; [rewrite length_drop, Hlen; done|done]].
    unfold list_handler, paged_select, try_catch, bind, call.
    rewrite range_of_eq, Hp.
    change ((2 - 1) * 30) with 30. change (30 + 29) with 59.
    rewrite Hexec. reflexivity.
Qed.

(** C10, as the code has it.  When [id] and [q] are given as strings and
    [id] is not blank after trimming, the handler makes one call, the
    single-row lookup by that id, and answers from it alone (404 on an
    error of the store, else the row), whatever [q] is.  The substring
    search on [q] is made only when [id] is absent or blank, and then only
    when [q] is not blank.  When [q] or [id] is repeated or bracketed in
    the query string, so that it is an array or an object, trimming it
    throws: the handler answers 500 and makes no call at all. *)
Theorem search_handler_id_first T req w :
  (forall id q,
     trimmed trim (query req !! "id") = inr id ->
     trimmed trim (query req !! "q") = inr q ->
     id <> "" ->
     forall reply b',
       exec (CSelect T None [FEq "id" (VStr id)] None None true) (store w)
       = (reply, b') ->
       search_handler exec trim T req w
       = Ret (match r_error reply with
              | Some e => status_json 404 (error_body (message e))
              | None => json (r_data reply)
              end)
             (logged w [CSelect T None [FEq "id" (VStr id)] None None true]
                b')) /\
  (trimmed trim (query req !! "id") = inr "" ->
   trimmed trim (query req !! "q") = inr "" ->
   search_handler exec trim T req w
   = Ret (status_json 400 (error_body "Provide either ?q or ?id")) w) /\
  (forall q,
     trimmed trim (query req !! "id") = inr "" ->
     trimmed trim (query req !! "q") = inr q -> q <> "" ->
     Z.abs (page_of trim req) <= 2 ^ 48 ->
     exists c reply b',
       c = CSelect T
             (Some match query req !! "count" with
                   | Some (VStr "exact") => CountExact
                   | _ => CountEstimated
                   end)
             [FIlike "original_title" ("%" +:+ q +:+ "%")]
             (Some "release_date")
             (Some ((page_of trim req - 1) * 30,
                    (page_of trim req - 1) * 30 + 29)) false /\
       exec c (store w) = (reply, b') /\
       search_handler exec trim T req w
       = Ret (match r_error reply with
              | Some e => status_json 400 (error_body (message e))
              | None => json (search_body (page_of trim req) reply)
              end) (logged w [c] b')) /\
  (forall e,
     trimmed trim (query req !! "q") = inl e \/
     trimmed trim (query req !! "id") = inl e ->
     exists msg,
       search_handler exec trim T req w
       = Ret (status_json 500 (error_body msg)) w).
Proof.
  unfold search_handler, try_catch, bind, call.
  split; [|split; [|split]].
  - intros id q -> -> Hid reply b' Hexec. apply String.eqb_neq in Hid.
    rewrite Hid. simpl. rewrite Hexec. by destruct (r_error reply).
  - intros -> ->. done.
  - intros q -> -> Hq _. apply String.eqb_neq in Hq. rewrite Hq. simpl.
    rewrite range_of_eq.
    eexists _, _, _. split; [reflexivity|].
    split; [apply surjective_pairing|].
    assert (match query req !! "count" with
            | Some (VStr "exact") => CountExact
            | _ => CountEstimated
            end
            = match query req !! "count" with
              | Some (VStr c) => if String.eqb c "exact" then CountExact
                                 else CountEstimated
              | _ => CountEstimated
              end) as ->.
    { destruct (query req !! "count") as [[| | | | |c| |]|]; try done.
      destruct (String.eqb_spec c "exact") as [->|Hne]; [done|].
      repeat (case_match; try done); congruence. }
    destruct (exec _ (store w)) as [reply b'].
    simpl. by destruct (r_error reply).
  - intros e [-> | He].
    + by eexists.
    + rewrite He. destruct (trimmed trim (query req !! "q")); by eexists.
Qed.

End ReadFacts.

(** ** Route precedence *)

Section RouteFacts.
Context {B : Type}.
Variable exec : Call -> B -> Reply * B.
Variable fetch : value -> string + FetchResponse.
Variable JSON_parse : string -> string + value.
Variable trim : string -> string.
Variable jwt_verify : option string -> option string -> option value.
Variable MY_API_KEY : option string.

Lemma dispatch_Some routes m p r ps :
  dispatch routes m p = Some (r, ps) ->
  In r routes /\ match_route r m p = Some ps.
Proof.
  induction routes as [|r0 routes IH]; [done|]. simpl.
  destruct (match_route r0 m p) as [ps0|] eqn:Hm.
  - intros [= <- <-]. split; [by left|done].
  - intros H. destruct (IH H) as [Hin Hr]. split; [by right|done].
Qed.

Lemma match_digits_route a t n m p ps :
  match_route {| r_method := GET; r_path := [Lit a; Lit t; DigitsParam n];
                 r_auth := false; r_endpoint := OnGetById t |} m p = Some ps ->
  m = GET /\
  exists x y id tail,
    split_on "/" p = "" :: x :: y :: id :: tail /\
    is_numeric id = true /\ ps !! n = Some id.
Proof.
  unfold match_route, match_path. simpl.
  destruct m; simpl; try done. intros H. split; [done|].
  destruct (split_on "/" p) as [|s0 segs]; [done|].
  destruct s0; [|done].
  destruct segs as [|x [|y [|id tail]]]; simpl in H.
  - done.
  - by destruct (String.eqb (lower a) (lower x)).
  - destruct (String.eqb (lower a) (lower x)); [|done].
    by destruct (String.eqb (lower t) (lower y)).
  - destruct (String.eqb (lower a) (lower x)); [|done].
    destruct (String.eqb (lower t) (lower y)); [|done].
    destruct (is_numeric id) eqn:Hid; [|done].
    exists x, y, id, tail. split; [done|]. split; [done|].
    destruct tail as [|s1 [|s2 tail]]; simpl in H.
    + injection H as <-. by rewrite lookup_insert_eq.
    + destruct (String.eqb s1 ""); [|done].
      injection H as <-. by rewrite lookup_insert_eq.
    + done.
Qed.

Lemma dispatch_literals :
  Forall (fun T =>
    dispatch app_routes GET ("/api/" +:+ T +:+ "/search")
    = Some (search_route T, ∅) /\
    dispatch app_routes GET ("/api/" +:+ T +:+ "/with-video")
    = Some (with_video_route T, ∅)) tables.
Proof. repeat constructor. Qed.

(** C9.  For each table [T], [GET /api/T/search] and
    [GET /api/T/with-video] are dispatched to the search and with-video
    routes.  The get-by-id route is chosen only for a path whose third
    segment consists of digits, so never for the segment [search] or
    [with-video]; [generateRoutes] registers it after those two routes.
    A [GET /api/T/search] request is therefore answered by the search
    handler. *)
Theorem literal_routes_before_id :
  Forall (fun T =>
    dispatch app_routes GET ("/api/" +:+ T +:+ "/search")
    = Some (search_route T, ∅) /\
    dispatch app_routes GET ("/api/" +:+ T +:+ "/with-video")
    = Some (with_video_route T, ∅)) tables /\
  (forall m p r ps T,
     dispatch app_routes m p = Some (r, ps) -> r_endpoint r = OnGetById T ->
     m = GET /\
     exists x y id tail,
       split_on "/" p = "" :: x :: y :: id :: tail /\
       is_numeric id = true /\ ps !! "id" = Some id) /\
  (forall m p r ps T x y s tail,
     split_on "/" p = "" :: x :: y :: s :: tail ->
     s = "search" \/ s = "with-video" ->
     dispatch app_routes m p = Some (r, ps) -> r_endpoint r <> OnGetById T) /\
  (forall T,
     generateRoutes T !! 2%nat = Some (with_video_route T) /\
     generateRoutes T !! 3%nat = Some (search_route T) /\
     generateRoutes T !! 4%nat = Some (get_by_id_route T)) /\
  Forall (fun T =>
    forall fuel req (w : @World B),
      method req = GET -> path req = "/api/" +:+ T +:+ "/search" ->
      handle exec fetch JSON_parse trim jwt_verify MY_API_KEY fuel req w
      = search_handler exec trim T (with_params req ∅) w) tables.
Proof.
  assert (forall m p r ps T,
     dispatch app_routes m p = Some (r, ps) -> r_endpoint r = OnGetById T ->
     m = GET /\
     exists x y id tail,
       split_on "/" p = "" :: x :: y :: id :: tail /\
       is_numeric id = true /\ ps !! "id" = Some id) as Hnum.
  { intros m p r ps T Hd Hep.
    apply dispatch_Some in Hd as [Hin Hm].
    simpl in Hin.
    repeat (destruct Hin as [<- | Hin];
            [first [discriminate Hep | by eapply match_digits_route]|]).
    destruct Hin. }
  split; [exact dispatch_literals|]. split; [exact Hnum|].
  split; [|split].
  - intros m p r ps T x y s tail Hsplit Hs Hd Hep.
    destruct (Hnum _ _ _ _ _ Hd Hep)
      as (_ & x' & y' & id & tail' & Hsplit' & Hdigits & _).
    rewrite Hsplit in Hsplit'. injection Hsplit' as _ _ <- _.
    by destruct Hs as [-> | ->].
  - done.
  - pose proof dispatch_literals as Hlit.
    eapply Forall_impl; [exact Hlit|]. cbv beta.
    intros T [Hsearch _] fuel req w Hm Hp.
    unfold handle. by rewrite Hm, Hp, Hsearch.
Qed.

End RouteFacts.

(** ** Scenarios through the application *)

(** C5 as stated fails: a body with both [items] and [fileUrl] is not
    rejected; the items are inserted and the URL is never fetched. *)
Lemma bulk_upload_two_shapes_processed :
  let b := VObj [("items", VArr [row 7; row 8]);
                 ("fileUrl", VStr "https://example.org/new.ndjson")] in
  isArray (get "items" b) = true /\ truthy (get "fileUrl" b) = true /\
  app 3 (request POST "/api/movies/bulk-upload" ∅ (Some secret) b)
    (movies_with [])
  = Ret {| status := 200;
           sent := message_body
                     "Inserted 2 records into movies in chunks of 30" |}
        {| store := store (movies_with [row 7; row 8]);
           trace := [CUpsert "movies" [row 7; row 8] "id" true] |}.
Proof. vm_compute. done. Qed.

Lemma bulk_upload_shapes_witness :
  let req := request POST "/api/movies/bulk-upload" ∅ (Some secret)
               (VObj [("items", VArr [row 7; row 8]);
                      ("fileUrl", VStr "https://example.org/new.ndjson")]) in
  bulk_upload_handler RefStore.exec (RefStore.fetch_from resources)
    RefStore.parse_id_object Js.trim 3 "movies" req (movies_with [])
  = Ret (json (message_body
           ("Inserted " +:+ num_to_string (Z.of_nat (length [row 7; row 8]))
            +:+ " records into " +:+ "movies" +:+ " in chunks of "
            +:+ num_to_string (chunkSize_of trim req))))
        (logged (movies_with [])
           (map (fun c => CUpsert "movies" c "id" true)
              (chunks_of (Z.to_nat (chunkSize_of trim req)) [row 7; row 8]))
           (store (movies_with [row 7; row 8]))).
Proof.
  intros req.
  apply (proj1 (proj2 (bulk_upload_shapes RefStore.exec
           (RefStore.fetch_from resources) RefStore.parse_id_object Js.trim
           3 "movies" req (movies_with [])))).
  - right. split; reflexivity.
  - simpl. lia.
  - vm_compute. discriminate.
  - vm_compute. reflexivity.
Defined.

Example bulk_upload_no_shape :
  app 3 (request POST "/api/movies/bulk-upload" ∅ (Some secret)
           (VObj [("fileUrl", VStr "")])) (movies_with [])
  = Ret (status_json 400 (error_body
      "Provide either an array body, { items: [...] }, or { fileUrl } pointing to NDJSON"))
      (movies_with []).
Proof. vm_compute. reflexivity. Qed.

Example bulk_upload_file_url :
  app 3 (request POST "/api/movies/bulk-upload" {[ "chunkSize" := "2" ]}
           (Some secret)
           (VObj [("fileUrl", VStr "https://example.org/new.ndjson")]))
    (movies_with [])
  = Ret (json (message_body
           "Stream-inserted 3 records into movies in chunks of 2"))
        {| store := store (movies_with [row 1; row 2; row 3]);
           trace := [CUpsert "movies" [row 1; row 2] "id" true;
                     CUpsert "movies" [row 3] "id" true] |}.
Proof. vm_compute. reflexivity. Qed.

(** C6 as stated fails: the table has no row with id 7, the store reports
    no error for the update, and the answer is 200 with an empty body. *)
Lemma update_unknown_id_is_not_400 :
  let patch := VObj [("original_title", VStr "X")] in
  RefStore.select_rows [FEq "id" (VStr "7")] films = [] /\
  app 3 (request PUT "/api/movies/7" ∅ (Some secret) patch)
    (movies_with films)
  = Ret {| status := 200; sent := VUndefined |}
        {| store := store (movies_with films);
           trace := [CUpdate "movies" patch [FEq "id" (VStr "7")]] |}.
Proof. vm_compute. done. Qed.

Lemma update_handler_responses_witness :
  let patch := VObj [("original_title", VStr "Aliens")] in
  let req := with_params (request PUT "/api/movies/2" ∅ (Some secret) patch)
               {[ "id" := "2" ]} in
  update_handler RefStore.exec "movies" req (movies_with films)
  = Ret (json (film 2 "Aliens"))
        (logged (movies_with films)
           [CUpdate "movies" (body req) [FEq "id" (param req "id")]]
           (store (movies_with
              [film 1 "The Matrix"; film 2 "Aliens";
               film 3 "The Matrix Reloaded"]))).
Proof.
  intros patch req.
  apply (proj1 (proj2 (update_handler_responses RefStore.exec "movies" req
           (movies_with films)
           {| r_data := VArr [film 2 "Aliens"]; r_error := None;
              r_count := None |}
           (store (movies_with
              [film 1 "The Matrix"; film 2 "Aliens";
               film 3 "The Matrix Reloaded"]))
           ltac:(vm_compute; reflexivity)))
         (film 2 "Aliens") []); reflexivity.
Defined.

Example update_needs_a_header :
  app 3 (request PUT "/api/movies/1" ∅ None
           (VObj [("title", VStr "X")])) (movies_with films)
  = Ret (status_json 401 (error_body "Unauthorized")) (movies_with films).
Proof. vm_compute. reflexivity. Qed.

Example update_needs_a_valid_token :
  app 3 (request PUT "/api/movies/1" ∅ (Some "expired")
           (VObj [("title", VStr "X")])) (movies_with films)
  = Ret (status_json 403 (error_body "Forbidden")) (movies_with films).
Proof. vm_compute. reflexivity. Qed.

Example update_with_a_valid_token :
  app 3 (request PUT "/api/movies/1" ∅ (Some secret)
           (VObj [("title", VStr "X")])) (movies_with [row 1])
  = Ret (json (VObj [("id", VNum 1); ("title", VStr "X")]))
        {| store :=
             store (movies_with [VObj [("id", VNum 1); ("title", VStr "X")]]);
           trace := [CUpdate "movies" (VObj [("title", VStr "X")])
                       [FEq "id" (VStr "1")]] |}.
Proof. vm_compute. reflexivity. Qed.

Lemma authMiddleware_gate_witness :
  let req := request PUT "/api/movies/1" ∅ (Some secret)
               (VObj [("title", VStr "X")]) in
  let decoded := VObj [("sub", VStr "admin")] in
  authMiddleware RefStore.verify_secret (Some secret) req
    (update_handler RefStore.exec "movies") (movies_with films)
  = update_handler RefStore.exec "movies" (with_user req decoded)
      (movies_with films)
  /\ user (with_user req decoded) = Some decoded.
Proof.
  intros req decoded.
  apply (proj2 (proj2 (authMiddleware_gate RefStore.verify_secret
           (Some secret) req (update_handler RefStore.exec "movies")
           (movies_with films))) ("Bearer " +:+ secret) decoded);
    [reflexivity | discriminate | reflexivity].
Defined.

Lemma list_handler_page_witness :
  exists results w',
    list_handler RefStore.exec Js.trim "movies"
      (request GET "/api/movies" {[ "page" := "2" ]} None VUndefined)
      (movies_with rows45)
    = Ret (json (VObj [ ("page", VNum 2); ("total", VNum 45);
                        ("totalPages", VNum 2);
                        ("results", VArr results) ])) w'
    /\ length results = 15%nat /\ results = drop 30 rows45.
Proof.
  apply (proj2 (list_handler_page RefStore.exec Js.trim "movies"
           (request GET "/api/movies" {[ "page" := "2" ]} None VUndefined)
           (movies_with rows45)) rows45);
    [reflexivity | reflexivity | intros from to; vm_compute; reflexivity].
Defined.

Example list_page_two :
  app 3 (request GET "/api/movies" {[ "page" := "2" ]} None VUndefined)
    (movies_with rows45)
  = Ret (json (VObj [ ("page", VNum 2); ("total", VNum 45);
                      ("totalPages", VNum 2);
                      ("results", VArr (map row (seqZ 31 15))) ]))
        {| store := store (movies_with rows45);
           trace := [CSelect "movies" (Some CountExact) []
                       (Some "release_date") (Some (30, 59)) false] |}.
Proof. vm_compute. reflexivity. Qed.

Lemma search_handler_id_first_witness :
  let req := request GET "/api/movies/search"
               {[ "id" := " 2 "; "q" := "Matrix" ]} None VUndefined in
  search_handler RefStore.exec Js.trim "movies" req (movies_with films)
  = Ret (json (film 2 "Alien"))
        (logged (movies_with films)
           [CSelect "movies" None [FEq "id" (VStr "2")] None None true]
           (store (movies_with films))).
Proof.
  intros req.
  apply (proj1 (search_handler_id_first RefStore.exec Js.trim "movies" req
           (movies_with films)) "2" "Matrix"
           ltac:(reflexivity) ltac:(reflexivity) ltac:(discriminate)
           {| r_data := film 2 "Alien"; r_error := None; r_count := None |}
           (store (movies_with films))).
  vm_compute. reflexivity.
Defined.

(** C10 as stated fails: with [q] given twice beside a non-blank [id], the
    handler throws while trimming [q]; it answers 500 and never looks the
    id up. *)
Lemma search_repeated_q_is_not_looked_up :
  exists msg,
    app 3 (with_query
             (request GET "/api/movies/search" ∅ None VUndefined)
             {[ "id" := VStr "2"; "q" := VArr [VStr "Matrix"; VStr "Alien"] ]})
      (movies_with films)
    = Ret (status_json 500 (error_body msg)) (movies_with films).
Proof. eexists. vm_compute. reflexivity. Qed.

Example search_by_title_reaches_search :
  app 3 (request GET "/api/movies/search" {[ "q" := "Matrix" ]} None
           VUndefined) (movies_with films)
  = Ret (json (VObj [ ("page", VNum 1); ("total", VNum 2);
                      ("totalPages", VNum 1);
                      ("results", VArr [film 1 "The Matrix";
                                        film 3 "The Matrix Reloaded"]) ]))
        {| store := store (movies_with films);
           trace := [CSelect "movies" (Some CountEstimated)
                       [FIlike "original_title" "%Matrix%"]
                       (Some "release_date") (Some (0, 29)) false] |}.
Proof. vm_compute. reflexivity. Qed.

Example get_by_id_is_numeric :
  app 3 (request GET "/api/movies/3" ∅ None VUndefined) (movies_with films)
  = Ret (json (film 3 "The Matrix Reloaded"))
        {| store := store (movies_with films);
           trace := [CSelect "movies" None [FEq "id" (VNum 3)] None None
                       true] |}.
Proof. vm_compute. reflexivity. Qed.


(** * Further properties *)

(** ** chunkArray: number of chunks and edge cases *)

Section ChunkCount.
Context {A : Type}.
Implicit Types (array l : list A) (size : Z) (sz k : nat).

Lemma ceil_div_step a b : 0 < b -> ceil_div a b = 1 + ceil_div (a - b) b.
Proof.
  intros Hb. unfold ceil_div.
  replace (- (a - b)) with (- a + 1 * b) by lia.
  rewrite Z.div_add by lia. lia.
Qed.

Lemma ceil_div_small a b : - b < a <= 0 -> ceil_div a b = 0.
Proof.
  intros Ha. unfold ceil_div. rewrite Z.div_small by lia. done.
Qed.

Lemma chunks_of_count sz l :
  (0 < sz)%nat ->
  Z.of_nat (length (chunks_of sz l))
  = ceil_div (Z.of_nat (length l)) (Z.of_nat sz).
Proof.
  intros Hsz. pattern l. apply (chunks_of_ind sz); [done| |].
  - rewrite chunks_of_nil. simpl. by rewrite ceil_div_small by lia.
  - clear l. intros l Hl IH.
    rewrite chunks_of_unfold by done.
    change (length (take sz l :: chunks_of sz (drop sz l)))
      with (S (length (chunks_of sz (drop sz l)))).
    rewrite Nat2Z.inj_succ, IH, length_drop.
    rewrite (ceil_div_step (Z.of_nat (length l))) by lia.
    destruct (decide (sz <= length l)%nat) as [Hle|Hgt].
    + rewrite Nat2Z.inj_sub by done. lia.
    + assert (0 < length l)%nat by (destruct l; [done|simpl; lia]).
      replace (length l - sz)%nat with 0%nat by lia.
      rewrite !ceil_div_small by lia. done.
Qed.

Lemma chunks_of_take sz l k :
  (0 < sz)%nat -> concat (take k (chunks_of sz l)) = take (k * sz) l.
Proof.
  intros Hsz. revert k. pattern l. apply (chunks_of_ind sz); [done| |].
  - intros k. by rewrite chunks_of_nil, !take_nil.
  - clear l. intros l Hl IH k.
    rewrite chunks_of_unfold by done.
    destruct k as [|k]; [done|]. simpl.
    by rewrite IH, take_take_drop.
Qed.

(** X1.  For a positive size [chunkArray] returns
    [Math.ceil(array.length / size)] chunks. *)
Theorem chunkArray_count fuel array size :
  0 < size -> (length array < fuel)%nat ->
  exists chunks,
    chunkArray fuel array size = Some chunks /\
    Z.of_nat (length chunks) = ceil_div (Z.of_nat (length array)) size.
Proof.
  intros Hs Hfuel. exists (chunks_of (Z.to_nat size) array).
  split; [by apply chunkArray_chunks_of|].
  rewrite chunks_of_count by lia. f_equal. lia.
Qed.

(** X2.  The empty array gives no chunk for every size, positive or not;
    a non-empty array that is not longer than the size gives exactly one
    chunk, the array itself. *)
Theorem chunkArray_edges fuel array size :
  (0 < fuel)%nat ->
  (array = [] -> chunkArray fuel array size = Some []) /\
  (array <> [] -> Z.of_nat (length array) <= size ->
   (length array < fuel)%nat ->
   chunkArray fuel array size = Some [array]).
Proof.
  intros Hfuel. split.
  - intros ->. destruct fuel; [lia|]. done.
  - intros Hne Hle Hlen.
    assert (0 < length array)%nat by (destruct array; [done|simpl; lia]).
    rewrite chunkArray_chunks_of by lia.
    by rewrite chunks_of_length by (done || lia).
Qed.

End ChunkCount.

Lemma chunkArray_count_witness :
  exists chunks,
    chunkArray 8 [1; 2; 3; 4; 5; 6; 7] 3 = Some chunks /\
    Z.of_nat (length chunks)
    = ceil_div (Z.of_nat (length [1; 2; 3; 4; 5; 6; 7])) 3.
Proof.
  apply (chunkArray_count 8 [1; 2; 3; 4; 5; 6; 7] 3); [lia | simpl; lia].
Defined.

Lemma chunkArray_edges_witness :
  ([1; 2] = [] -> chunkArray 3 [1; 2] 5 = Some []) /\
  ([1; 2] <> [] -> Z.of_nat (length [1; 2]) <= 5 ->
   (length [1; 2] < 3)%nat -> chunkArray 3 [1; 2] 5 = Some [[1; 2]]).
Proof. apply (chunkArray_edges 3 [1; 2] 5). lia. Defined.

(** ** insertChunks: empty input and the count reported on failure *)

Section InsertChunksMore.
Context {B : Type}.
Variable exec : Call -> B -> Reply * B.
Implicit Types (w : @World B) (b : B).

Lemma insertChunks_returns fuel T rows chunkSize mode w :
  0 < chunkSize -> (length rows < fuel)%nat ->
  exists r w', insertChunks exec fuel T rows chunkSize mode w = Ret r w'.
Proof.
  intros Hs Hfuel. unfold insertChunks.
  rewrite chunkArray_chunks_of by done.
  destruct (run_ok_or_first_failure exec
              (map (write_call T mode) (chunks_of (Z.to_nat chunkSize) rows))
              (store w))
    as [[b' Hrun]|(k & b & c & reply & b' & e & Hrun & Hk & Hexec & Herr)].
  - eexists _, _. by apply insert_loop_ok.
  - eexists _, _. by eapply insert_loop_fail.
Qed.

(** X3.  With no rows [insertChunks] makes no call to the store and
    returns the count 0 without error, for every chunk size (positive or
    not) and every mode. *)
Theorem insertChunks_no_rows fuel T chunkSize mode w :
  (0 < fuel)%nat ->
  insertChunks exec fuel T [] chunkSize mode w
  = Ret {| error := None; insertedTotal := 0 |} w.
Proof. intros Hfuel. destruct fuel; [lia|]. done. Qed.

(** X4.  When the write of chunk [k] (counted from 0) is the first that
    fails, the count [insertChunks] reports is [k * chunkSize]: every chunk
    before the failing one is full; it is less than the number of rows. *)
Theorem insertChunks_failure_count fuel T rows chunkSize mode w
    k b c reply b' e :
  0 < chunkSize -> (length rows < fuel)%nat ->
  run_ok exec
    (take k (map (write_call T mode)
               (chunks_of (Z.to_nat chunkSize) rows))) (store w) = Some b ->
  map (write_call T mode) (chunks_of (Z.to_nat chunkSize) rows) !! k
  = Some c ->
  exec c b = (reply, b') -> r_error reply = Some e ->
  exists r w',
    insertChunks exec fuel T rows chunkSize mode w = Ret r w' /\
    is_Some (error r) /\
    insertedTotal r = Z.of_nat k * chunkSize /\
    insertedTotal r < Z.of_nat (length rows).
Proof.
  intros Hs Hfuel Hrun Hk Hexec Herr.
  unfold insertChunks. rewrite chunkArray_chunks_of by done.
  erewrite insert_loop_fail by eauto.
  eexists _, _. split; [done|]. simpl. split; [eauto|].
  rewrite chunks_of_take by lia.
  rewrite list_lookup_fmap in Hk.
  destruct (chunks_of (Z.to_nat chunkSize) rows !! k) as [chunk|] eqn:Hc;
    [|done].
  apply chunks_of_lookup in Hc as [Hc Hne]; [|lia].
  assert (k * Z.to_nat chunkSize < length rows)%nat as Hlt.
  { destruct (decide (k * Z.to_nat chunkSize < length rows)%nat); [done|].
    exfalso. apply Hne. rewrite Hc, drop_ge by lia. apply take_nil. }
  rewrite length_take. lia.
Qed.

End InsertChunksMore.

Lemma insertChunks_failure_count_witness :
  exists r w',
    insertChunks RefStore.exec 6 "movies"
      [row 1; row 2; row 3; row 4; row 1] 2 "insert" (movies_with [])
    = Ret r w' /\
    is_Some (error r) /\
    insertedTotal r = Z.of_nat 2 * 2 /\
    insertedTotal r < Z.of_nat (length [row 1; row 2; row 3; row 4; row 1]).
Proof.
  apply (insertChunks_failure_count RefStore.exec 6 "movies"
           [row 1; row 2; row 3; row 4; row 1] 2 "insert" (movies_with [])
           2%nat (store (movies_with [row 1; row 2; row 3; row 4]))
           (CInsert "movies" [row 1] false)
           (RefStore.reply_error
              "duplicate key value violates unique constraint")
           (store (movies_with [row 1; row 2; row 3; row 4]))
           {| message := "duplicate key value violates unique constraint" |});
    [lia | simpl; lia | vm_compute; reflexivity | reflexivity
    | vm_compute; reflexivity | reflexivity].
Defined.

Lemma insertChunks_no_rows_witness :
  insertChunks RefStore.exec 1 "movies" [] 0 "merge" (movies_with [row 1])
  = Ret {| error := None; insertedTotal := 0 |} (movies_with [row 1]).
Proof.
  apply (insertChunks_no_rows RefStore.exec 1 "movies" 0 "merge"
           (movies_with [row 1])). lia.
Defined.

(** ** The create route *)

Section CreateFacts.
Context {B : Type}.
Variable exec : Call -> B -> Reply * B.
Implicit Types (w : @World B) (b : B) (req : Request).

Lemma create_loop_ok T chunks : forall w b',
  run_ok exec (map (fun c => CInsert T c false) chunks) (store w) = Some b' ->
  create_loop exec T chunks w
  = Ret None (logged w (map (fun c => CInsert T c false) chunks) b').
Proof.
  induction chunks as [|chunk rest IH]; intros w b' Hrun.
  - simpl in *. injection Hrun as <-. by rewrite logged_nil.
  - simpl in *. unfold bind, call.
    destruct (exec _ (store w)) as [reply b1].
    destruct (r_error reply); [done|].
    erewrite IH by exact Hrun. by rewrite logged_cons.
Qed.

Lemma create_loop_fail T chunks : forall k w b c reply b' e,
  run_ok exec (take k (map (fun c => CInsert T c false) chunks)) (store w)
  = Some b ->
  map (fun c => CInsert T c false) chunks !! k = Some c ->
  exec c b = (reply, b') -> r_error reply = Some e ->
  create_loop exec T chunks w
  = Ret (Some (status_json 400 (error_body (message e))))
        (logged w (take (S k) (map (fun c => CInsert T c false) chunks)) b').
Proof.
  induction chunks as [|chunk rest IH];
    intros k w b c reply b' e Hrun Hk Hexec Herr; [done|].
  destruct k as [|k]; simpl in *; unfold bind, call.
  - injection Hrun as <-. injection Hk as <-.
    rewrite Hexec, Herr. unfold ret, logged. simpl. by rewrite take_0.
  - destruct (exec _ (store w)) as [reply0 b0].
    destruct (r_error reply0); [done|].
    erewrite IH by eauto. by rewrite logged_cons.
Qed.

(** X5.  The create route with an array body inserts the rows in chunks
    of 5000, in order, with plain inserts.  When every insert succeeds it
    answers 200 with the number of rows of the body.  When the insert of
    chunk [k] is the first to fail it stops there, and answers 400 with the
    store's message alone: the rows already inserted are not reported. *)
Theorem create_handler_bulk fuel T req w items :
  body req = VArr items -> (length items < fuel)%nat ->
  (forall b',
     run_ok exec (map (fun c => CInsert T c false) (chunks_of 5000 items))
       (store w) = Some b' ->
     create_handler exec fuel T req w
     = Ret (json (message_body
              (num_to_string (Z.of_nat (length items))
               +:+ " records inserted into " +:+ T)))
           (logged w (map (fun c => CInsert T c false) (chunks_of 5000 items))
              b')) /\
  (forall k b c reply b' e,
     run_ok exec
       (take k (map (fun c => CInsert T c false) (chunks_of 5000 items)))
       (store w) = Some b ->
     map (fun c => CInsert T c false) (chunks_of 5000 items) !! k = Some c ->
     exec c b = (reply, b') -> r_error reply = Some e ->
     create_handler exec fuel T req w
     = Ret (status_json 400 (error_body (message e)))
           (logged w
              (take (S k)
                 (map (fun c => CInsert T c false) (chunks_of 5000 items)))
              b')).
Proof.
  intros Hbody Hfuel.
  assert (chunkArray fuel items 5000 = Some (chunks_of 5000 items)) as Hch
    by (apply (chunkArray_chunks_of fuel items 5000); [lia|done]).
  unfold create_handler, try_catch, bind. rewrite Hbody, Hch. split.
  - intros b' Hrun. by rewrite (create_loop_ok T _ w b' Hrun).
  - intros k b c reply b' e Hrun Hk Hexec Herr.
    by rewrite (create_loop_fail T _ k w b c reply b' e Hrun Hk Hexec Herr).
Qed.

(** X6.  The create route with a body that is not an array makes one
    insert of that body and reads the inserted rows back.  It answers 400
    with the store's message on an error, 200 with the first returned row
    otherwise, and 500 when the store returns no error and [null] rows. *)
Theorem create_handler_single fuel T req w reply b' :
  isArray (body req) = false ->
  exec (CInsert T [body req] true) (store w) = (reply, b') ->
  (forall e, r_error reply = Some e ->
     create_handler exec fuel T req w
     = Ret (status_json 400 (error_body (message e)))
           (logged w [CInsert T [body req] true] b')) /\
  (forall inserted rest,
     r_error reply = None -> r_data reply = VArr (inserted :: rest) ->
     create_handler exec fuel T req w
     = Ret (json inserted) (logged w [CInsert T [body req] true] b')) /\
  (r_error reply = None -> r_data reply = VNull ->
     exists msg,
       create_handler exec fuel T req w
       = Ret (status_json 500 (error_body msg))
             (logged w [CInsert T [body req] true] b')).
Proof.
  intros Hb Hexec.
  assert (create_handler exec fuel T req w
          = try_catch
              (bind (call exec (CInsert T [body req] true))
                 (fun reply =>
                    match r_error reply with
                    | Some e => ret (bad_request e)
                    | None =>
                        match index0 (r_data reply) with
                        | inl e => throw e
                        | inr inserted => ret (json inserted)
                        end
                    end)) w) as ->
    by (unfold create_handler; by destruct (body req)).
  unfold try_catch, bind, call. rewrite Hexec.
  split; [|split].
  - by intros e ->.
  - by intros inserted rest -> ->.
  - intros -> ->. by eexists.
Qed.

End CreateFacts.

Lemma create_handler_bulk_witness :
  let req := request POST "/api/movies" ∅ (Some secret)
               (VArr [row 1; row 2; row 1]) in
  (forall b',
     run_ok RefStore.exec
       (map (fun c => CInsert "movies" c false)
          (chunks_of 5000 [row 1; row 2; row 1]))
       (store (movies_with [])) = Some b' ->
     create_handler RefStore.exec 4 "movies" req (movies_with [])
     = Ret (json (message_body
              (num_to_string (Z.of_nat (length [row 1; row 2; row 1]))
               +:+ " records inserted into " +:+ "movies")))
           (logged (movies_with [])
              (map (fun c => CInsert "movies" c false)
                 (chunks_of 5000 [row 1; row 2; row 1])) b')) /\
  (forall k b c reply b' e,
     run_ok RefStore.exec
       (take k (map (fun c => CInsert "movies" c false)
                  (chunks_of 5000 [row 1; row 2; row 1])))
       (store (movies_with [])) = Some b ->
     map (fun c => CInsert "movies" c false)
       (chunks_of 5000 [row 1; row 2; row 1]) !! k = Some c ->
     RefStore.exec c b = (reply, b') -> r_error reply = Some e ->
     create_handler RefStore.exec 4 "movies" req (movies_with [])
     = Ret (status_json 400 (error_body (message e)))
           (logged (movies_with [])
              (take (S k)
                 (map (fun c => CInsert "movies" c false)
                    (chunks_of 5000 [row 1; row 2; row 1])))
              b')).
Proof.
  intros req.
  apply (create_handler_bulk RefStore.exec 4 "movies" req (movies_with [])
           [row 1; row 2; row 1]); [reflexivity | simpl; lia].
Defined.

Example create_bulk_duplicate :
  app 4 (request POST "/api/movies" ∅ (Some secret)
           (VArr [row 1; row 2; row 1])) (movies_with [])
  = Ret (status_json 400
           (error_body "duplicate key value violates unique constraint"))
        {| store := store (movies_with []);
           trace := [CInsert "movies" [row 1; row 2; row 1] false] |}.
Proof. vm_compute. reflexivity. Qed.

Lemma create_handler_single_witness :
  let req := request POST "/api/movies" ∅ (Some secret) (row 4) in
  create_handler RefStore.exec 1 "movies" req (movies_with [row 1])
  = Ret (json (row 4))
        (logged (movies_with [row 1]) [CInsert "movies" [body req] true]
           (store (movies_with [row 1; row 4]))).
Proof.
  intros req.
  apply (proj1 (proj2 (create_handler_single RefStore.exec 1 "movies" req
           (movies_with [row 1])
           {| r_data := VArr [row 4]; r_error := None; r_count := None |}
           (store (movies_with [row 1; row 4]))
           eq_refl ltac:(vm_compute; reflexivity)))
         (row 4) []); reflexivity.
Defined.

(** ** ingestNdjsonFromUrl: failures *)

Section IngestFailures.
Context {B : Type}.
Variable exec : Call -> B -> Reply * B.
Variable fetch : value -> string + FetchResponse.
Variable JSON_parse : string -> string + value.
Variable trim : string -> string.
Implicit Types (w : @World B) (b : B) (buffer objs : list value).

Lemma chunk_failed_not_empty i n e : String.eqb (chunk_failed i n e) "" = false.
Proof. reflexivity. Qed.

(** One flush of a buffer that fits in a chunk, whatever the store says. *)
Lemma flush_eq fuel T buffer chunkSize total w :
  buffer <> [] -> Z.of_nat (length buffer) <= chunkSize ->
  (length buffer < fuel)%nat ->
  flush exec fuel T buffer chunkSize total w
  = match r_error (exec (CUpsert T buffer "id" true) (store w)).1 with
    | Some e =>
        Throw (chunk_failed 0 1 e)
          (logged w [CUpsert T buffer "id" true]
             (exec (CUpsert T buffer "id" true) (store w)).2)
    | None =>
        Ret (total + Z.of_nat (length buffer))
          (logged w [CUpsert T buffer "id" true]
             (exec (CUpsert T buffer "id" true) (store w)).2)
    end.
Proof.
  intros Hne Hle Hfuel.
  assert (0 < length buffer)%nat as Hpos
    by (destruct buffer; [done|simpl; lia]).
  unfold flush, insertChunks.
  rewrite chunkArray_chunks_of by lia.
  rewrite chunks_of_length by (done || lia).
  unfold bind. simpl. unfold bind, call. simpl.
  change (write_call T "skip" buffer) with (CUpsert T buffer "id" true).
  destruct (exec (CUpsert T buffer "id" true) (store w)) as [reply b1].
  simpl. destruct (r_error reply) as [e|]; [|done].
  done.
Qed.

(** X7.  When [fetch] rejects, or answers with a status that is not a
    success, [ingestNdjsonFromUrl] throws before any line is read and
    without any call to the store; the message of the second case is
    "Failed to fetch fileUrl: " with the status and its text. *)
Theorem ingestNdjsonFromUrl_fetch_failure fuel T fileUrl chunkSize w :
  (forall e, fetch fileUrl = inl e ->
     ingestNdjsonFromUrl exec fetch JSON_parse trim fuel T fileUrl chunkSize w
     = Throw e w) /\
  (forall resp, fetch fileUrl = inr resp -> ok resp = false ->
     ingestNdjsonFromUrl exec fetch JSON_parse trim fuel T fileUrl chunkSize w
     = Throw ("Failed to fetch fileUrl: " +:+ num_to_string (f_status resp)
              +:+ " " +:+ statusText resp) w).
Proof.
  unfold ingestNdjsonFromUrl. split.
  - by intros e ->.
  - by intros resp -> ->.
Qed.

Lemma count_full_chunks sz buffer objs :
  (0 < sz)%nat -> length buffer = sz ->
  (length (buffer ++ objs) / sz = S (length objs / sz))%nat.
Proof.
  intros Hsz Hlen. rewrite length_app, Hlen.
  replace (sz + length objs)%nat with (1 * sz + length objs)%nat by lia.
  rewrite Nat.div_add_l by lia. lia.
Qed.

(** The loop stops at a line that does not parse; the full chunks read
    before it have been written. *)
Lemma ingest_lines_parse_error fuel T chunkSize pre bad post e :
  0 < chunkSize -> (Z.to_nat chunkSize < fuel)%nat ->
  String.eqb (trim bad) "" = false -> JSON_parse (trim bad) = inl e ->
  forall buffer total w objs b',
  Z.of_nat (length buffer) < chunkSize ->
  parse_lines JSON_parse trim pre = inr objs ->
  run_ok exec
    (take (length (buffer ++ objs) / Z.to_nat chunkSize)
       (map (fun c => CUpsert T c "id" true)
          (chunks_of (Z.to_nat chunkSize) (buffer ++ objs)))) (store w)
  = Some b' ->
  bind (ingest_lines exec JSON_parse trim fuel T chunkSize (pre ++ bad :: post)
          buffer total)
    (fun '(buffer, total) =>
       if negb (length buffer =? 0)%nat
       then flush exec fuel T buffer chunkSize total
       else ret total) w
  = Throw e
      (logged w
         (take (length (buffer ++ objs) / Z.to_nat chunkSize)
            (map (fun c => CUpsert T c "id" true)
               (chunks_of (Z.to_nat chunkSize) (buffer ++ objs)))) b').
Proof.
  intros Hs Hfuel Hbad He.
  induction pre as [|line rest IH]; intros buffer total w objs b' Hbuf Hp Hrun.
  - simpl in Hp. injection Hp as <-. rewrite app_nil_r in *.
    rewrite Nat.div_small in * by lia. rewrite take_0 in *.
    simpl in Hrun. injection Hrun as <-.
    simpl. rewrite Hbad, He. unfold bind, throw. by rewrite logged_nil.
  - simpl in Hp. simpl app. simpl ingest_lines.
    destruct (String.eqb (trim line) ""); [by apply IH|].
    destruct (JSON_parse (trim line)) as [e'|obj]; [done|].
    destruct (parse_lines JSON_parse trim rest) as [e'|objs'] eqn:Hrest; [done|].
    injection Hp as <-.
    replace (buffer ++ obj :: objs') with ((buffer ++ [obj]) ++ objs') in *
      by by rewrite <- app_assoc.
    destruct (Z.geb_spec (Z.of_nat (length (buffer ++ [obj]))) chunkSize)
      as [Hfull|Hroom].
    + assert (length (buffer ++ [obj]) = Z.to_nat chunkSize) as Hlen
        by (rewrite length_app in *; simpl in *; lia).
      rewrite count_full_chunks in * by (done || lia).
      rewrite chunks_of_full_prefix in * by (done || lia).
      simpl in Hrun.
      destruct (exec _ (store w)) as [reply b1] eqn:Hexec.
      destruct (r_error reply) eqn:Herr; [done|].
      unfold bind at 1.
      erewrite (bind_Ret (flush _ _ _ _ _ _)); cycle 1.
      { apply (flush_one _ _ _ _ _ _ _ reply); try done; try lia.
        by destruct buffer. }
      specialize (IH [] (total + Z.of_nat (length (buffer ++ [obj])))
                    (logged w [CUpsert T (buffer ++ [obj]) "id" true] b1)
                    objs' b').
      unfold bind at 1 in IH. rewrite IH; [| simpl; lia | done | done].
      by rewrite logged_logged.
    + apply IH; [lia|done|done].
Qed.

(** X8.  A non-blank line that [JSON.parse] rejects aborts the ingestion
    with the parse error.  The values of the lines before it have been
    written as far as they filled whole chunks, and those writes stay; the
    values still in the buffer are never written. *)
Theorem ingestNdjsonFromUrl_parse_error fuel T fileUrl chunkSize w resp
    pre bad post e objs b' :
  0 < chunkSize -> (Z.to_nat chunkSize < fuel)%nat ->
  fetch fileUrl = inr resp -> ok resp = true ->
  body_lines resp = pre ++ bad :: post ->
  parse_lines JSON_parse trim pre = inr objs ->
  String.eqb (trim bad) "" = false -> JSON_parse (trim bad) = inl e ->
  run_ok exec
    (take (length objs / Z.to_nat chunkSize)
       (map (fun c => CUpsert T c "id" true)
          (chunks_of (Z.to_nat chunkSize) objs))) (store w) = Some b' ->
  ingestNdjsonFromUrl exec fetch JSON_parse trim fuel T fileUrl chunkSize w
  = Throw e
      (logged w
         (take (length objs / Z.to_nat chunkSize)
            (map (fun c => CUpsert T c "id" true)
               (chunks_of (Z.to_nat chunkSize) objs))) b').
Proof.
  intros Hs Hfuel Hfetch Hok Hlines Hpre Hbad He Hrun.
  unfold ingestNdjsonFromUrl. rewrite Hfetch, Hok, Hlines.
  apply (ingest_lines_parse_error fuel T chunkSize pre bad post e Hs Hfuel
           Hbad He [] 0 w objs b'); [simpl; lia | done | done].
Qed.

(** The first flush that the store refuses ends the ingestion. *)
Lemma ingest_lines_flush_error fuel T chunkSize lines :
  0 < chunkSize -> (Z.to_nat chunkSize < fuel)%nat ->
  forall buffer total w objs k b c reply b' e,
  Z.of_nat (length buffer) < chunkSize ->
  parse_lines JSON_parse trim lines = inr objs ->
  run_ok exec
    (take k (map (fun c => CUpsert T c "id" true)
               (chunks_of (Z.to_nat chunkSize) (buffer ++ objs)))) (store w)
  = Some b ->
  map (fun c => CUpsert T c "id" true)
    (chunks_of (Z.to_nat chunkSize) (buffer ++ objs)) !! k = Some c ->
  exec c b = (reply, b') -> r_error reply = Some e ->
  bind (ingest_lines exec JSON_parse trim fuel T chunkSize lines buffer total)
    (fun '(buffer, total) =>
       if negb (length buffer =? 0)%nat
       then flush exec fuel T buffer chunkSize total
       else ret total) w
  = Throw (chunk_failed 0 1 e)
      (logged w
         (take (S k)
            (map (fun c => CUpsert T c "id" true)
               (chunks_of (Z.to_nat chunkSize) (buffer ++ objs)))) b').
Proof.
  intros Hs Hfuel.
  induction lines as [|line rest IH];
    intros buffer total w objs k b c reply b' e Hbuf Hp Hrun Hk Hexec Herr.
  - simpl in Hp. injection Hp as <-. rewrite app_nil_r in *.
    destruct buffer as [|x buffer]; [done|].
    rewrite chunks_of_length in * by (simpl in *; lia || done).
    destruct k as [|k]; [|done].
    simpl in Hrun, Hk. injection Hrun as <-. injection Hk as <-.
    change (flush exec fuel T (x :: buffer) chunkSize total w
            = Throw (chunk_failed 0 1 e)
                (logged w [CUpsert T (x :: buffer) "id" true] b')).
    rewrite flush_eq by (simpl in *; (done || lia)).
    rewrite Hexec. simpl. by rewrite Herr.
  - simpl in Hp. simpl ingest_lines.
    destruct (String.eqb (trim line) ""); [by eapply IH|].
    destruct (JSON_parse (trim line)) as [e'|obj]; [done|].
    destruct (parse_lines JSON_parse trim rest) as [e'|objs'] eqn:Hrest; [done|].
    injection Hp as <-.
    replace (buffer ++ obj :: objs') with ((buffer ++ [obj]) ++ objs') in *
      by by rewrite <- app_assoc.
    destruct (Z.geb_spec (Z.of_nat (length (buffer ++ [obj]))) chunkSize)
      as [Hfull|Hroom].
    + assert (length (buffer ++ [obj]) = Z.to_nat chunkSize) as Hlen
        by (rewrite length_app in *; simpl in *; lia).
      assert (buffer ++ [obj] <> []) as Hne by by destruct buffer.
      rewrite chunks_of_full_prefix in * by (done || lia).
      unfold bind at 1. unfold bind at 1.
      rewrite flush_eq by (done || lia).
      destruct k as [|k]; simpl in Hrun, Hk.
      * injection Hrun as <-. injection Hk as <-.
        rewrite Hexec. simpl. by rewrite Herr.
      * destruct (exec _ (store w)) as [reply0 b0] eqn:Hexec0.
        simpl. destruct (r_error reply0); [done|].
        specialize (IH [] (total + Z.of_nat (length (buffer ++ [obj])))
                      (logged w [CUpsert T (buffer ++ [obj]) "id" true] b0)
                      objs' k b c reply b' e).
        unfold bind at 1 in IH.
        rewrite IH; [| simpl; lia | done | done | done | done | done].
        by rewrite logged_logged.
    + eapply IH; eauto; lia.
Qed.

(** X9.  When the store refuses a flush, the ingestion stops at that
    write and throws.  Each flush is a bulk insert of one chunk, so the
    message is always "Chunk 1/1 failed: " with the store's text, whichever
    flush of the stream it was. *)
Theorem ingestNdjsonFromUrl_flush_error fuel T fileUrl chunkSize w resp objs
    k b c reply b' e :
  0 < chunkSize -> (Z.to_nat chunkSize < fuel)%nat ->
  fetch fileUrl = inr resp -> ok resp = true ->
  parse_lines JSON_parse trim (body_lines resp) = inr objs ->
  run_ok exec
    (take k (map (fun c => CUpsert T c "id" true)
               (chunks_of (Z.to_nat chunkSize) objs))) (store w) = Some b ->
  map (fun c => CUpsert T c "id" true) (chunks_of (Z.to_nat chunkSize) objs)
    !! k = Some c ->
  exec c b = (reply, b') -> r_error reply = Some e ->
  ingestNdjsonFromUrl exec fetch JSON_parse trim fuel T fileUrl chunkSize w
  = Throw ("Chunk 1/1 failed: " +:+ message e)
      (logged w
         (take (S k)
            (map (fun c => CUpsert T c "id" true)
               (chunks_of (Z.to_nat chunkSize) objs))) b').
Proof.
  intros Hs Hfuel Hfetch Hok Hparse Hrun Hk Hexec Herr.
  unfold ingestNdjsonFromUrl. rewrite Hfetch, Hok.
  apply (ingest_lines_flush_error fuel T chunkSize (body_lines resp) Hs Hfuel
           [] 0 w objs k b c reply b' e); (done || (simpl; lia)).
Qed.

End IngestFailures.

Lemma ingestNdjsonFromUrl_fetch_failure_witness :
  ingestNdjsonFromUrl RefStore.exec (RefStore.fetch_from resources)
    RefStore.parse_id_object Js.trim 3 "movies" (VStr "https://example.org/gone") 2
    (movies_with [])
  = Throw ("Failed to fetch fileUrl: " +:+ num_to_string 404 +:+ " "
           +:+ "Not Found") (movies_with []).
Proof.
  apply (proj2 (ingestNdjsonFromUrl_fetch_failure RefStore.exec
           (RefStore.fetch_from resources) RefStore.parse_id_object Js.trim
           3 "movies" (VStr "https://example.org/gone") 2 (movies_with []))
         {| ok := false; f_status := 404; statusText := "Not Found";
            body_lines := [] |}); reflexivity.
Defined.

Lemma ingestNdjsonFromUrl_parse_error_witness :
  ingestNdjsonFromUrl RefStore.exec (RefStore.fetch_from more_resources)
    RefStore.parse_id_object Js.trim 3 "movies"
    (VStr "https://example.org/broken.ndjson") 2 (movies_with [])
  = Throw "Unexpected token in JSON"
      (logged (movies_with [])
         (take (length [row 1; row 2; row 3] / Z.to_nat 2)
            (map (fun c => CUpsert "movies" c "id" true)
               (chunks_of (Z.to_nat 2) [row 1; row 2; row 3])))
         (store (movies_with [row 1; row 2]))).
Proof.
  apply (ingestNdjsonFromUrl_parse_error RefStore.exec
           (RefStore.fetch_from more_resources) RefStore.parse_id_object Js.trim
           3 "movies" (VStr "https://example.org/broken.ndjson") 2
           (movies_with [])
           {| ok := true; f_status := 200; statusText := "OK";
              body_lines := broken_ndjson |}
           [RefStore.id_line 1; RefStore.id_line 2; RefStore.id_line 3]
           "not json" [RefStore.id_line 4] "Unexpected token in JSON"
           [row 1; row 2; row 3] (store (movies_with [row 1; row 2])));
    [lia | simpl; lia | reflexivity | reflexivity | reflexivity
    | vm_compute; reflexivity | reflexivity | reflexivity
    | vm_compute; reflexivity].
Defined.

Example ingest_broken_resource :
  ingestNdjsonFromUrl RefStore.exec (RefStore.fetch_from more_resources)
    RefStore.parse_id_object Js.trim 3 "movies"
    (VStr "https://example.org/broken.ndjson") 2 (movies_with [])
  = Throw "Unexpected token in JSON"
      {| store := store (movies_with [row 1; row 2]);
         trace := [CUpsert "movies" [row 1; row 2] "id" true] |}.
Proof. vm_compute. reflexivity. Qed.

Lemma ingestNdjsonFromUrl_flush_error_witness :
  ingestNdjsonFromUrl RefStore.exec (RefStore.fetch_from resources)
    RefStore.parse_id_object Js.trim 3 "movies"
    (VStr "https://example.org/new.ndjson") 2 no_tables
  = Throw ("Chunk 1/1 failed: "
           +:+ message {| message := "relation does not exist" |})
      (logged no_tables
         (take 1
            (map (fun c => CUpsert "movies" c "id" true)
               (chunks_of (Z.to_nat 2) [row 1; row 2; row 3])))
         (store no_tables)).
Proof.
  apply (ingestNdjsonFromUrl_flush_error RefStore.exec
           (RefStore.fetch_from resources) RefStore.parse_id_object Js.trim
           3 "movies" (VStr "https://example.org/new.ndjson") 2 no_tables
           {| ok := true; f_status := 200; statusText := "OK";
              body_lines := new_ndjson |}
           [row 1; row 2; row 3] 0%nat (store no_tables)
           (CUpsert "movies" [row 1; row 2] "id" true)
           (RefStore.reply_error "relation does not exist")
           (store no_tables) {| message := "relation does not exist" |});
    [lia | simpl; lia | reflexivity | reflexivity | vm_compute; reflexivity
    | reflexivity | reflexivity | vm_compute; reflexivity | reflexivity].
Defined.

(** ** ingestNdjsonFromUrl and bulk-upload: what they never do *)

Section IngestSafety.
Context {B : Type}.
Variable exec : Call -> B -> Reply * B.
Variable fetch : value -> string + FetchResponse.
Variable JSON_parse : string -> string + value.
Variable trim : string -> string.
Implicit Types (w : @World B) (b : B) (buffer : list value).

Lemma skip_writes_only_here {X} T chunkSize w (o : outcome X) :
  match o with
  | Ret _ w' | Throw _ w' => w' = w
  | OutOfFuel => False
  end ->
  skip_writes_only T chunkSize w o.
Proof.
  destruct o as [x w'|e w'|]; simpl; try done;
    intros ->; exists []; by rewrite app_nil_r.
Qed.

Lemma skip_writes_only_after {X} T chunkSize w rows b (o : outcome X) :
  0 < Z.of_nat (length rows) <= chunkSize ->
  skip_writes_only T chunkSize (logged w [CUpsert T rows "id" true] b) o ->
  skip_writes_only T chunkSize w o.
Proof.
  intros Hrows.
  destruct o as [x w'|e w'|]; simpl; try done;
    intros (calls & Htrace & Hcalls);
    exists (CUpsert T rows "id" true :: calls);
    (split; [by rewrite Htrace, <- app_assoc|]);
    (constructor; [by exists rows|done]).
Qed.

Lemma ingest_lines_safe fuel T chunkSize lines :
  0 < chunkSize -> (Z.to_nat chunkSize < fuel)%nat ->
  forall buffer total w,
  Z.of_nat (length buffer) < chunkSize ->
  skip_writes_only T chunkSize w
    (bind (ingest_lines exec JSON_parse trim fuel T chunkSize lines buffer total)
       (fun '(buffer, total) =>
          if negb (length buffer =? 0)%nat
          then flush exec fuel T buffer chunkSize total
          else ret total) w).
Proof.
  intros Hs Hfuel.
  induction lines as [|line rest IH]; intros buffer total w Hbuf.
  - destruct buffer as [|x buffer].
    + by apply skip_writes_only_here.
    + change (skip_writes_only T chunkSize w
                (flush exec fuel T (x :: buffer) chunkSize total w)).
      rewrite flush_eq by (simpl in *; (done || lia)).
      destruct (exec _ (store w)) as [reply b1]. simpl fst. simpl snd.
      destruct (r_error reply);
        (eapply skip_writes_only_after; [|by apply skip_writes_only_here]);
        simpl in *; lia.
  - simpl ingest_lines.
    destruct (String.eqb (trim line) ""); [by apply IH|].
    destruct (JSON_parse (trim line)) as [e|obj];
      [by apply skip_writes_only_here|].
    destruct (Z.geb_spec (Z.of_nat (length (buffer ++ [obj]))) chunkSize)
      as [Hfull|Hroom]; [|by apply IH].
    assert (Z.of_nat (length (buffer ++ [obj])) = chunkSize) as Hlen
      by (rewrite length_app in *; simpl in *; lia).
    assert (buffer ++ [obj] <> []) as Hne by by destruct buffer.
    unfold bind at 1. unfold bind at 1.
    rewrite flush_eq by (done || lia).
    destruct (exec _ (store w)) as [reply b1]. simpl fst. simpl snd.
    destruct (r_error reply).
    + eapply skip_writes_only_after; [|by apply skip_writes_only_here]. lia.
    + eapply skip_writes_only_after; [|apply IH; simpl; lia]. lia.
Qed.

(** X10.  For a positive chunk size [ingestNdjsonFromUrl] always ends, by
    returning or by throwing, and all it ever does to the store is upsert
    into the given table with duplicates skipped, at most [chunkSize] rows
    in a call: it never holds more than one chunk of records, never makes a
    plain insert and never overwrites a row. *)
Theorem ingestNdjsonFromUrl_skip_writes_only fuel T fileUrl chunkSize w :
  0 < chunkSize -> (Z.to_nat chunkSize < fuel)%nat ->
  skip_writes_only T chunkSize w
    (ingestNdjsonFromUrl exec fetch JSON_parse trim fuel T fileUrl chunkSize w).
Proof.
  intros Hs Hfuel. unfold ingestNdjsonFromUrl.
  destruct (fetch fileUrl) as [e|resp]; [by apply skip_writes_only_here|].
  destruct (ok resp); [|by apply skip_writes_only_here].
  apply ingest_lines_safe; [done|done|simpl; lia].
Qed.

Lemma chunkSize_of_cases req :
  1 <= chunkSize_of trim req /\
  (forall n, parseInt trim (query req !! "chunkSize") = Some n -> 1 <= n ->
     chunkSize_of trim req = n) /\
  (parseInt trim (query req !! "chunkSize") = None \/
   parseInt trim (query req !! "chunkSize") = Some 0 -> chunkSize_of trim req = 30) /\
  (forall n, parseInt trim (query req !! "chunkSize") = Some n -> n < 0 ->
     chunkSize_of trim req = 1).
Proof.
  unfold chunkSize_of, or_default. repeat split.
  - lia.
  - intros n -> Hn. destruct (Z.eqb_spec n 0); lia.
  - intros [-> | ->]; done.
  - intros n -> Hn. destruct (Z.eqb_spec n 0); lia.
Qed.

(** X11.  The bulk-upload handler always answers, whatever [chunkSize]
    the query asks for: the size it uses is never below 1 (30 when the
    parameter is missing, not a number or 0; 1 when it is negative), so no
    chunking loop runs forever, and every error thrown on the way becomes a
    response.  The status is 200, 400 or 500. *)
Theorem bulk_upload_always_answers fuel T req w :
  (forall rows,
     body req = VArr rows \/ get "items" (body req) = VArr rows ->
     (length rows < fuel)%nat) ->
  (Z.to_nat (chunkSize_of trim req) < fuel)%nat ->
  1 <= chunkSize_of trim req /\
  (parseInt trim (query req !! "chunkSize") = None \/
   parseInt trim (query req !! "chunkSize") = Some 0 -> chunkSize_of trim req = 30) /\
  (forall n, parseInt trim (query req !! "chunkSize") = Some n -> n < 0 ->
     chunkSize_of trim req = 1) /\
  exists resp w',
    bulk_upload_handler exec fetch JSON_parse trim fuel T req w = Ret resp w' /\
    (status resp = 200 \/ status resp = 400 \/ status resp = 500).
Proof.
  intros Hrows Hfuel.
  destruct (chunkSize_of_cases req) as (Hpos & _ & Hdef & Hneg).
  split; [done|]. split; [done|]. split; [done|].
  assert (forall rows, (length rows < fuel)%nat ->
    exists resp w',
      try_catch
        (bind (insertChunks exec fuel T rows (chunkSize_of trim req) "skip")
           (fun r => ret (inserted_response T (chunkSize_of trim req) r))) w
      = Ret resp w' /\
      (status resp = 200 \/ status resp = 400 \/ status resp = 500)) as Hins.
  { intros rows Hlen.
    destruct (insertChunks_returns exec fuel T rows (chunkSize_of trim req) "skip" w)
      as (r & w' & Hr); [lia|done|].
    unfold try_catch, bind. rewrite Hr. eexists _, _. split; [done|].
    unfold inserted_response. destruct (has_error r); simpl; auto. }
  unfold bulk_upload_handler.
  destruct (body req) as [| | | | | |rows|fields] eqn:Hbody;
    try (simpl; eexists _, _; split; [done|simpl; auto]).
  - apply Hins, Hrows. by left.
  - simpl get.
    destruct (assoc "items" fields) as [| | | | | |rows|fs] eqn:Hitems;
      try (by apply Hins, Hrows; right).
    all: destruct (truthy (assoc "fileUrl" fields));
      try (unfold try_catch, ret; eexists _, _; split; [done|simpl; auto]).
    all: pose proof (ingestNdjsonFromUrl_skip_writes_only fuel T
                       (assoc "fileUrl" fields) (chunkSize_of trim req) w
                       ltac:(lia) Hfuel) as Hsafe.
    all: unfold try_catch, bind.
    all: destruct (ingestNdjsonFromUrl exec fetch JSON_parse trim fuel T
                     (assoc "fileUrl" fields) (chunkSize_of trim req) w)
           as [total w'|e w'|]; [| |done].
    all: eexists _, _; split; [done|simpl; auto].
Qed.

End IngestSafety.

Lemma ingestNdjsonFromUrl_skip_writes_only_witness :
  skip_writes_only "movies" 2 (movies_with [])
    (ingestNdjsonFromUrl RefStore.exec (RefStore.fetch_from more_resources)
       RefStore.parse_id_object Js.trim 3 "movies"
       (VStr "https://example.org/broken.ndjson") 2 (movies_with [])).
Proof.
  apply (ingestNdjsonFromUrl_skip_writes_only RefStore.exec
           (RefStore.fetch_from more_resources) RefStore.parse_id_object Js.trim
           3 "movies" (VStr "https://example.org/broken.ndjson") 2
           (movies_with [])); [lia | simpl; lia].
Defined.

Lemma bulk_upload_always_answers_witness :
  let req := request POST "/api/movies/bulk-upload" {[ "chunkSize" := "-5" ]}
               (Some secret) (VArr [row 1; row 2]) in
  1 <= chunkSize_of trim req /\
  (parseInt trim (query req !! "chunkSize") = None \/
   parseInt trim (query req !! "chunkSize") = Some 0 -> chunkSize_of trim req = 30) /\
  (forall n, parseInt trim (query req !! "chunkSize") = Some n -> n < 0 ->
     chunkSize_of trim req = 1) /\
  exists resp w',
    bulk_upload_handler RefStore.exec (RefStore.fetch_from resources)
      RefStore.parse_id_object Js.trim 3 "movies" req (movies_with [])
    = Ret resp w' /\
    (status resp = 200 \/ status resp = 400 \/ status resp = 500).
Proof.
  intros req.
  apply (bulk_upload_always_answers RefStore.exec
           (RefStore.fetch_from resources) RefStore.parse_id_object Js.trim
           3 "movies" req (movies_with [])).
  - intros rows [H | H]; [|discriminate H].
    injection H as <-. simpl. lia.
  - vm_compute. lia.
Defined.

Example bulk_upload_negative_chunk_size :
  app 3 (request POST "/api/movies/bulk-upload" {[ "chunkSize" := "-5" ]}
           (Some secret) (VArr [row 1; row 2])) (movies_with [])
  = Ret (json (message_body
           "Inserted 2 records into movies in chunks of 1"))
        {| store := store (movies_with [row 1; row 2]);
           trace := [CUpsert "movies" [row 1] "id" true;
                     CUpsert "movies" [row 2] "id" true] |}.
Proof. vm_compute. reflexivity. Qed.

(** ** The application as a whole *)

Section AppFacts.
Context {B : Type}.
Variable exec : Call -> B -> Reply * B.
Variable fetch : value -> string + FetchResponse.
Variable JSON_parse : string -> string + value.
Variable trim : string -> string.
Variable jwt_verify : option string -> option string -> option value.
Variable MY_API_KEY : option string.
Implicit Types (w : @World B) (b : B) (req : Request).

Lemma method_eqb_eq (m1 m2 : Method) : method_eqb m1 m2 = true -> m1 = m2.
Proof. by destruct m1, m2. Qed.

(** [authMiddleware] is on the routes that are not [GET], and only there. *)
Lemma auth_on_mutations r :
  In r app_routes -> r_auth r = negb (method_eqb (r_method r) GET).
Proof.
  intros Hin.
  assert (forallb (fun r => Bool.eqb (r_auth r)
                              (negb (method_eqb (r_method r) GET)))
            app_routes = true) as Hall by reflexivity.
  rewrite forallb_forall in Hall.
  by apply Bool.eqb_prop, Hall.
Qed.

Lemma dispatch_method m p r ps :
  dispatch app_routes m p = Some (r, ps) ->
  In r app_routes /\ r_method r = m.
Proof.
  intros Hd. apply dispatch_Some in Hd as [Hin Hm]. split; [done|].
  unfold match_route in Hm.
  destruct (method_eqb (r_method r) m) eqn:E; [|done].
  by apply method_eqb_eq.
Qed.

(** X12.  Every route registered with [POST], [PUT] or [DELETE] runs
    [authMiddleware] before its handler: when such a route handles a
    request that has no Authorization header (or an empty one), the answer
    is 401 Unauthorized, the handler is not run and the store is not
    touched. *)
Theorem mutations_need_a_token fuel r req w :
  In r app_routes -> r_method r <> GET ->
  headers req !! "authorization" = None \/
  headers req !! "authorization" = Some "" ->
  run_route exec fetch JSON_parse trim jwt_verify MY_API_KEY fuel r req w
  = Ret (status_json 401 (error_body "Unauthorized")) w.
Proof.
  intros Hin Hm Hh.
  unfold run_route. rewrite (auth_on_mutations r Hin).
  destruct (r_method r); [done|..];
    (unfold authMiddleware; simpl; by destruct Hh as [-> | ->]).
Qed.

(** X13.  The [GET] routes are public: the answer to a [GET] request, and
    what it does to the store, do not depend on the Authorization header
    of the request, present or not, valid or not. *)
Theorem reads_ignore_headers fuel req hs w :
  method req = GET ->
  (forall k, k <> "authorization" -> hs !! k = headers req !! k) ->
  handle exec fetch JSON_parse trim jwt_verify MY_API_KEY fuel
    (with_headers req hs) w
  = handle exec fetch JSON_parse trim jwt_verify MY_API_KEY fuel req w.
Proof.
  intros Hm _. unfold handle.
  change (method (with_headers req hs)) with (method req).
  change (path (with_headers req hs)) with (path req).
  rewrite Hm.
  destruct (dispatch app_routes GET (path req)) as [[r ps]|] eqn:Hd; [|done].
  apply dispatch_method in Hd as [Hin Hr].
  unfold run_route. rewrite (auth_on_mutations r Hin), Hr.
  change (negb (method_eqb GET GET)) with false. cbv iota.
  by destruct (r_endpoint r), req.
Qed.

Lemma try_catch_not_Throw (m : M Response) w e w' :
  try_catch m w <> Throw e w'.
Proof. unfold try_catch. by destruct (m w). Qed.

Lemma endpoint_handler_not_Throw fuel ep req w e w' :
  endpoint_handler exec fetch JSON_parse trim fuel ep req w <> Throw e w'.
Proof.
  destruct ep; simpl; try apply try_catch_not_Throw. done.
Qed.

(** X14.  No error escapes the application: whatever is thrown inside a
    handler (a failed fetch, a line that is not JSON, a store that returns
    no rows to index) is caught and answered with a response, so a request
    either gets a response or is still being processed. *)
Theorem handle_never_throws fuel req w :
  (exists resp w',
     handle exec fetch JSON_parse trim jwt_verify MY_API_KEY fuel req w
     = Ret resp w') \/
  handle exec fetch JSON_parse trim jwt_verify MY_API_KEY fuel req w = OutOfFuel.
Proof.
  assert (forall e w',
    handle exec fetch JSON_parse trim jwt_verify MY_API_KEY fuel req w
    <> Throw e w') as Hno.
  { intros e w'. unfold handle.
    destruct (dispatch app_routes (method req) (path req)) as [[r ps]|];
      [|done].
    unfold run_route, authMiddleware.
    destruct (r_auth r); [|apply endpoint_handler_not_Throw].
    destruct (headers (with_params req ps) !! "authorization") as [h|];
      [|done].
    destruct (String.eqb h ""); [done|].
    destruct (jwt_verify _ MY_API_KEY); [|done].
    apply endpoint_handler_not_Throw. }
  destruct (handle exec fetch JSON_parse trim jwt_verify MY_API_KEY fuel req w)
    as [resp w'|e w'|]; [left; eauto | by destruct (Hno e w') | by right].
Qed.

End AppFacts.

Lemma mutations_need_a_token_witness :
  run_route RefStore.exec (RefStore.fetch_from resources)
    RefStore.parse_id_object Js.trim RefStore.verify_secret (Some secret) 3
    {| r_method := DELETE; r_path := [Lit "api"; Lit "movies"; Param "id"];
       r_auth := true; r_endpoint := OnDelete "movies" |}
    (with_params (request DELETE "/api/movies/1" ∅ None VUndefined)
       {[ "id" := "1" ]})
    (movies_with films)
  = Ret (status_json 401 (error_body "Unauthorized")) (movies_with films).
Proof.
  apply (mutations_need_a_token RefStore.exec (RefStore.fetch_from resources)
           RefStore.parse_id_object Js.trim RefStore.verify_secret
           (Some secret) 3);
    [vm_compute; tauto | discriminate | by left].
Defined.

Lemma reads_ignore_headers_witness :
  app 3 (with_headers (request GET "/api/movies/2" ∅ None VUndefined)
           {[ "authorization" := "Bearer expired" ]}) (movies_with films)
  = app 3 (request GET "/api/movies/2" ∅ None VUndefined) (movies_with films).
Proof.
  apply (reads_ignore_headers RefStore.exec (RefStore.fetch_from resources)
           RefStore.parse_id_object Js.trim RefStore.verify_secret (Some secret) 3
           (request GET "/api/movies/2" ∅ None VUndefined)
           {[ "authorization" := "Bearer expired" ]} (movies_with films)).
  - reflexivity.
  - intros k Hk. by rewrite lookup_singleton_ne.
Defined.

(** ** Paths, ids and pages *)

Section PathFacts.
Context {B : Type}.
Variable exec : Call -> B -> Reply * B.
Variable fetch : value -> string + FetchResponse.
Variable JSON_parse : string -> string + value.
Variable trim : string -> string.
Variable jwt_verify : option string -> option string -> option value.
Variable MY_API_KEY : option string.
Implicit Types (w : @World B) (b : B) (req : Request).

Lemma is_digit_val c :
  is_digit c = true -> exists d, digit_val c = Some d /\ 0 <= d < 10.
Proof.
  unfold is_digit, digit_val. intros H.
  apply andb_prop in H as [H1 H2].
  apply Nat.leb_le in H1. apply Nat.leb_le in H2.
  destruct (Z.leb_spec 48 (Z.of_nat (nat_of_ascii c))); [|lia].
  destruct (Z.leb_spec (Z.of_nat (nat_of_ascii c)) 57); [|lia].
  simpl. eexists. split; [done|]. lia.
Qed.

Lemma parse_digits_all s : forall acc,
  all_digits s = true ->
  match acc with Some a => 0 <= a | None => s <> "" end ->
  exists n, parse_digits 10 s acc = Some n /\ 0 <= n.
Proof.
  induction s as [|c s IH]; intros acc Hall Hacc.
  - destruct acc as [a|]; [|done]. by exists a.
  - simpl in Hall. apply andb_prop in Hall as [Hc Hs].
    destruct (is_digit_val c Hc) as (d & Hd & Hrange).
    simpl. rewrite Hd.
    destruct (Z.ltb_spec d 10); [|lia].
    apply IH; [done|].
    destruct acc as [a|]; simpl; lia.
Qed.

(** What the route lets through as an id is a number for [Number]. *)
Lemma Number_numeric s :
  is_numeric s = true -> exists n, Number s = VNum n /\ 0 <= n.
Proof.
  intros H. unfold Number. rewrite H.
  unfold is_numeric in H. apply andb_prop in H as [Hne Hall].
  destruct (parse_digits_all s None Hall) as (n & -> & Hn).
  - intros ->. done.
  - by exists n.
Qed.

(** X15.  Whenever a request is dispatched to the get-by-id route, the id
    the handler looks up is a number that is not negative: [Number] of the
    path segment is never [NaN] there.  When the id is at most 2^53, where
    [Number] is exact, the route makes exactly one single-row lookup by
    that number, answered 404 on an error of the store and 200 with the row
    otherwise. *)
Theorem get_by_id_looks_up_a_number fuel req w r ps T :
  dispatch app_routes (method req) (path req) = Some (r, ps) ->
  r_endpoint r = OnGetById T ->
  exists id n,
    ps !! "id" = Some id /\ Number id = VNum n /\ 0 <= n /\
    forall reply b',
      n <= 2 ^ 53 ->
      exec (CSelect T None [FEq "id" (VNum n)] None None true) (store w)
      = (reply, b') ->
      handle exec fetch JSON_parse trim jwt_verify MY_API_KEY fuel req w
      = Ret (match r_error reply with
             | Some e => status_json 404 (error_body (message e))
             | None => json (r_data reply)
             end)
            (logged w [CSelect T None [FEq "id" (VNum n)] None None true] b').
Proof.
  intros Hd Hep.
  assert (r_auth r = false /\
          exists id, ps !! "id" = Some id /\ is_numeric id = true)
    as (Hauth & id & Hid & Hnum).
  { pose proof Hd as Hd'. apply dispatch_Some in Hd' as [Hin Hm].
    simpl in Hin.
    repeat (destruct Hin as [<- | Hin];
            [first [discriminate Hep
                   | (split; [done|]);
                     apply match_digits_route in Hm
                       as (_ & x & y & id & tail & _ & Hnum & Hid);
                     by exists id]|]).
    destruct Hin. }
  destruct (Number_numeric id Hnum) as (n & HN & Hn).
  exists id, n. split; [done|]. split; [done|]. split; [done|].
  intros reply b' _ Hexec.
  unfold handle. rewrite Hd. unfold run_route. rewrite Hauth, Hep. simpl.
  unfold get_by_id_handler, try_catch, bind, call, param_text. simpl.
  rewrite Hid. simpl. rewrite HN, Hexec.
  by destruct (r_error reply).
Qed.

Lemma match_api_prefix a t rest p ps :
  match_path (Lit a :: Lit t :: rest) p = Some ps ->
  exists x y tail,
    split_on "/" p = "" :: x :: y :: tail /\
    lower x = lower a /\ lower y = lower t.
Proof.
  unfold match_path.
  destruct (split_on "/" p) as [|s0 segs]; [done|].
  destruct s0; [|done].
  destruct segs as [|x [|y tail]]; simpl.
  - done.
  - by destruct (String.eqb (lower a) (lower x)).
  - destruct (String.eqb_spec (lower a) (lower x)) as [Hx|]; [|done].
    destruct (String.eqb_spec (lower t) (lower y)) as [Hy|]; [|done].
    intros _. by exists x, y, tail.
Qed.

(** X16.  Only the three configured tables have routes: a request is
    dispatched to a route only if that route is the health check, or the
    path of the request starts with [/api/] followed by [movies], [series]
    or [anime] (in any letter case). *)
Theorem only_configured_tables m p r ps :
  dispatch app_routes m p = Some (r, ps) ->
  r_endpoint r = OnHealth \/
  exists x y tail,
    split_on "/" p = "" :: x :: y :: tail /\
    lower x = "api" /\ In (lower y) tables.
Proof.
  clear exec fetch JSON_parse trim jwt_verify MY_API_KEY.
  intros Hd. apply dispatch_Some in Hd as [Hin Hm].
  unfold match_route in Hm.
  destruct (method_eqb (r_method r) m); [|done].
  simpl in Hin.
  repeat (destruct Hin as [<- | Hin];
          [first [by left
                 | right; simpl in Hm;
                   apply match_api_prefix in Hm
                     as (x & y & tail & Hs & Hx & Hy);
                   exists x, y, tail; split; [done|];
                   split; [done|]; rewrite Hy; simpl; tauto]|]).
  destruct Hin.
Qed.

Lemma slice_window {X} (a : list X) i size :
  0 <= i -> 0 < size ->
  slice a i (i + size) = take (Z.to_nat size) (drop (Z.to_nat i) a).
Proof.
  intros Hi Hs.
  destruct (decide (i < Z.of_nat (length a))) as [Hlt|Hge].
  - by apply slice_forward.
  - rewrite drop_ge, take_nil by lia. unfold slice.
    destruct (Z.ltb_spec i 0); [lia|].
    destruct (Z.ltb_spec (i + size) 0); [lia|].
    rewrite !Z.min_r by lia. by rewrite Z.sub_diag.
Qed.

(** X17.  On a store that serves a range of its rows with their exact
    count, the list route answers page [p] with [1 <= p <= 2^48] (where the
    program's arithmetic on the page is exact) with the rows from
    [30 * (p - 1)] on, at most 30 of them, with the number of rows as
    [total].  The page has rows exactly when [p <= totalPages]: the pages 1
    to [totalPages] are the non-empty ones. *)
Theorem list_pages_cover T req w rows :
  1 <= page_of trim req <= 2 ^ 48 ->
  (forall from to,
     (exec (CSelect T (Some CountExact) [] (Some "release_date")
              (Some (from, to)) false) (store w)).1
     = {| r_data := VArr (slice rows from (to + 1));
          r_error := None;
          r_count := Some (Z.of_nat (length rows)) |}) ->
  exists results totalPages w',
    list_handler exec trim T req w
    = Ret (json (VObj [ ("page", VNum (page_of trim req));
                        ("total", VNum (Z.of_nat (length rows)));
                        ("totalPages", VNum totalPages);
                        ("results", VArr results) ])) w' /\
    results = take 30 (drop (Z.to_nat (30 * (page_of trim req - 1))) rows) /\
    (results <> [] <-> page_of trim req <= totalPages).
Proof.
  intros Hp Hrange.
  assert (slice rows ((page_of trim req - 1) * 30)
            ((page_of trim req - 1) * 30 + 29 + 1)
          = take 30 (drop (Z.to_nat (30 * (page_of trim req - 1))) rows))
    as Hslice.
  { replace ((page_of trim req - 1) * 30 + 29 + 1)
      with ((page_of trim req - 1) * 30 + 30) by lia.
    rewrite slice_window by lia. change (Z.to_nat 30) with 30%nat.
    do 2 f_equal. lia. }
  specialize (Hrange ((page_of trim req - 1) * 30) ((page_of trim req - 1) * 30 + 29)).
  rewrite Hslice in Hrange.
  destruct (exec (CSelect T (Some CountExact) [] (Some "release_date")
                    (Some ((page_of trim req - 1) * 30,
                           (page_of trim req - 1) * 30 + 29)) false) (store w))
    as [reply b'] eqn:Hexec.
  simpl in Hrange. subst reply.
  exists (take 30 (drop (Z.to_nat (30 * (page_of trim req - 1))) rows)).
  exists (ceil_div (Z.of_nat (length rows)) limit). eexists.
  split; [|split; [done|]].
  - unfold list_handler, paged_select, try_catch, bind, call.
    rewrite range_of_eq, Hexec. reflexivity.
  - pose proof (ceil_div_bounds (Z.of_nat (length rows))) as Hb.
    unfold limit in *.
    set (i := Z.to_nat (30 * (page_of trim req - 1))).
    assert (take 30 (drop i rows) <> [] <-> (i < length rows)%nat) as ->.
    { split.
      - intros Hne. destruct (decide (i < length rows)%nat); [done|].
        exfalso. apply Hne. rewrite drop_ge by lia. apply take_nil.
      - intros Hlt Hnil.
        assert (length (take 30 (drop i rows)) = 0)%nat as Hz
          by (by rewrite Hnil).
        rewrite length_take, length_drop in Hz. lia. }
    subst i. lia.
Qed.

End PathFacts.

Lemma get_by_id_looks_up_a_number_witness :
  exists id n,
    ({[ "id" := "007" ]} : gmap string string) !! "id" = Some id /\
    Number id = VNum n /\ 0 <= n /\
    forall reply b',
      n <= 2 ^ 53 ->
      RefStore.exec (CSelect "movies" None [FEq "id" (VNum n)] None None true)
        (store (movies_with films)) = (reply, b') ->
      app 3 (request GET "/api/movies/007" ∅ None VUndefined)
        (movies_with films)
      = Ret (match r_error reply with
             | Some e => status_json 404 (error_body (message e))
             | None => json (r_data reply)
             end)
            (logged (movies_with films)
               [CSelect "movies" None [FEq "id" (VNum n)] None None true] b').
Proof.
  apply (get_by_id_looks_up_a_number RefStore.exec
           (RefStore.fetch_from resources) RefStore.parse_id_object Js.trim
           RefStore.verify_secret (Some secret) 3
           (request GET "/api/movies/007" ∅ None VUndefined)
           (movies_with films) (get_by_id_route "movies")
           {[ "id" := "007" ]} "movies"); reflexivity.
Defined.

Example get_by_id_unknown :
  app 3 (request GET "/api/movies/007" ∅ None VUndefined) (movies_with films)
  = Ret (status_json 404 (error_body
           "JSON object requested, multiple (or no) rows returned"))
        {| store := store (movies_with films);
           trace := [CSelect "movies" None [FEq "id" (VNum 7)] None None
                       true] |}.
Proof. vm_compute. reflexivity. Qed.

Example unknown_table_is_not_served :
  app 3 (request GET "/api/books" ∅ None VUndefined) (movies_with films)
  = Ret (status_json 404 VUndefined) (movies_with films) /\
  app 3 (request GET "/API/Movies/3/" ∅ None VUndefined) (movies_with films)
  = Ret (json (film 3 "The Matrix Reloaded"))
        {| store := store (movies_with films);
           trace := [CSelect "movies" None [FEq "id" (VNum 3)] None None
                       true] |}.
Proof. split; vm_compute; reflexivity. Qed.

Lemma list_pages_cover_witness :
  let req := request GET "/api/movies" {[ "page" := "3" ]} None VUndefined in
  exists results totalPages w',
    list_handler RefStore.exec Js.trim "movies" req (movies_with rows45)
    = Ret (json (VObj [ ("page", VNum (page_of Js.trim req));
                        ("total", VNum (Z.of_nat (length rows45)));
                        ("totalPages", VNum totalPages);
                        ("results", VArr results) ])) w' /\
    results
    = take 30 (drop (Z.to_nat (30 * (page_of Js.trim req - 1))) rows45) /\
    (results <> [] <-> page_of Js.trim req <= totalPages).
Proof.
  intros req.
  apply (list_pages_cover RefStore.exec Js.trim "movies" req
           (movies_with rows45) rows45);
    [vm_compute; split; discriminate
    | intros from to; vm_compute; reflexivity].
Defined.

Lemma only_configured_tables_witness :
  OnUpdate "series" = OnHealth \/
  exists x y tail,
    split_on "/" "/api/Series/9" = "" :: x :: y :: tail /\
    lower x = "api" /\ In (lower y) tables.
Proof.
  apply (only_configured_tables PUT "/api/Series/9"
           {| r_method := PUT; r_path := [Lit "api"; Lit "series"; Param "id"];
              r_auth := true; r_endpoint := OnUpdate "series" |}
           {[ "id" := "9" ]}).
  vm_compute. reflexivity.
Defined.

Example list_page_three_is_empty :
  app 3 (request GET "/api/movies" {[ "page" := "3" ]} None VUndefined)
    (movies_with rows45)
  = Ret (json (VObj [ ("page", VNum 3); ("total", VNum 45);
                      ("totalPages", VNum 2); ("results", VArr []) ]))
        {| store := store (movies_with rows45);
           trace := [CSelect "movies" (Some CountExact) []
                       (Some "release_date") (Some (60, 89)) false] |}.
Proof. vm_compute. reflexivity. Qed.
